(** * Tabular reinforcement learning notebook (10_rl_basics.ipynb)

    A shallow embedding of the Python functions of the notebook
    [CodeExamples/10_rl_basics.ipynb]: [evaluate_policy], [value_iteration],
    [extract_policy], [choose_action] and [q_learning], together with the
    small part of Python, numpy and gym they rely on.

    The notebook is an exercise sheet: the blocks marked [## TODO] contain
    comments only.  The embedding follows the text of the functions as they
    stand, so a TODO block contributes no statement.  In [extract_policy]
    the TODO block is the whole suite of the [for] loop: Python's compiler
    refuses a loop without a statement in it, so this function cannot be
    called until the block is filled in, and the embedding says so.

    Numbers.  Python floats are modelled by the rationals [Q] with exact
    arithmetic.  The functions as they stand only add rewards and compare
    [0] with [1e-30]; no theorem below depends on rounding. *)

From Stdlib Require Import QArith ZArith Lia.
From stdpp Require Import base list strings gmap.

Local Open Scope string_scope.
Local Open Scope Q_scope.
Local Open Scope list_scope.
Local Open Scope nat_scope.

(** ** Python values, exceptions and outcomes *)

(** A location of a numpy array in the store. *)
Definition loc := nat.

Inductive pyobj : Type :=
  | PyInt (z : Z)
  | PyFloat (q : Q)
  | PyStr (s : string)
  | PyArray (l : loc)
  | PyOther (repr : string).

Inductive exn : Type :=
  | NameError (name : string)
  | IndexError
  | TypeError
  | ValueError
  | KeyError
  | IndentationError.   (* raised by the compiler, before anything runs *)

(** What a call does: it returns, it raises, or (for the [while True] loop
    of [evaluate_policy], which is run with fuel) it is still running when
    the fuel is gone. *)
Inductive outcome (A : Type) : Type :=
  | Ok (a : A)
  | Raise (e : exn)
  | OutOfFuel.
Arguments Ok {A} a.
Arguments Raise {A} e.
Arguments OutOfFuel {A}.

(** Lines written by [print] and [env.render()].  The [%g] rendering of
    the float in the progress line of [q_learning] is kept symbolic: the
    event carries the list whose [np.mean] is printed. *)
Inductive output : Type :=
  | Out_converged (iteration : nat)
  | Out_progress (iteration : nat) (window : list Q)
  | Out_render (frame : string).

(** Calls made on the environment, in order. *)
Inductive interaction : Type :=
  | Reset (obs : nat)
  | Step (action : pyobj) (obs : nat) (reward : Q) (done : bool).

(** ** The environment collaborator (a gym environment) *)

(** One entry of [env.unwrapped.P[s][a]]:
    (probability, next state, reward, done). *)
Definition transition : Type := Q * nat * Q * bool.

Record Env : Type := {
  St : Type;                                   (* the mutable state of the object, its random generator included *)
  observation_space_n : nat;
  action_space_n : nat;
  P : St -> nat -> nat -> list transition;     (* env.unwrapped.P[s][a] *)
  reset : St -> nat * St;
  step : St -> pyobj -> (exn + nat * Q * bool) * St;
  render : St -> string
}.

(** ** The state of the interpreter and the monad of calls *)

Record World (E : Env) : Type := mkWorld {
  sim : St E;                 (* the environment object *)
  heap : list (list Q);       (* one-dimensional numpy arrays, by location *)
  stdout : list output;
  trace : list interaction
}.
Arguments mkWorld {E}.
Arguments sim {E}.
Arguments heap {E}.
Arguments stdout {E}.
Arguments trace {E}.

Definition Py (E : Env) (A : Type) : Type := World E -> outcome A * World E.

Definition ret {E A} (a : A) : Py E A := fun w => (Ok a, w).

Definition raise {E A} (e : exn) : Py E A := fun w => (Raise e, w).

Definition out_of_fuel {E A} : Py E A := fun w => (OutOfFuel, w).

Definition bind {E A B} (c : Py E A) (k : A -> Py E B) : Py E B :=
  fun w =>
    match c w with
    | (Ok a, w') => k a w'
    | (Raise e, w') => (Raise e, w')
    | (OutOfFuel, w') => (OutOfFuel, w')
    end.

Notation "'do' x <- c ;; k" := (bind c (fun x => k))
  (at level 10, x name, c at level 99, k at level 200).
Notation "'do' ' pat <- c ;; k" := (bind c (fun x => match x with pat => k end))
  (at level 10, pat pattern, c at level 99, k at level 200).
Notation "'run' c ;; k" := (bind c (fun _ => k))
  (at level 10, c at level 99, k at level 200).

(** Control of a loop body: fall through to the next iteration, or [break]. *)
Inductive ctl : Type := Next | Break.

Section Interpreter.
Context {E : Env}.

(** [for x in xs: body], the loop variables threaded as [s]. *)
Fixpoint for_in {T : Type} (xs : list nat) (body : nat -> T -> Py E (ctl * T)) (s : T)
  : Py E T :=
  match xs with
  | [] => ret s
  | x :: rest =>
      do r <- body x s ;;
      match r with
      | (Break, s') => ret s'
      | (Next, s') => for_in rest body s'
      end
  end.

(** [while True: body], run with fuel. *)
Fixpoint while_true {T : Type} (fuel : nat) (body : T -> Py E (ctl * T)) (s : T)
  : Py E T :=
  match fuel with
  | O => out_of_fuel
  | S fuel' =>
      do r <- body s ;;
      match r with
      | (Break, s') => ret s'
      | (Next, s') => while_true fuel' body s'
      end
  end.

Definition print (o : output) : Py E unit :=
  fun w => (Ok tt, mkWorld (sim w) (heap w) (stdout w ++ [o]) (trace w)).

(** [env.reset()] *)
Definition env_reset : Py E nat :=
  fun w =>
    let '(obs, st) := reset E (sim w) in
    (Ok obs, mkWorld st (heap w) (stdout w) (trace w ++ [Reset obs])).

(** [env.step(a)]; the fourth component of gym's answer is dropped by
    every caller. *)
Definition env_step (a : pyobj) : Py E (nat * Q * bool) :=
  fun w =>
    match step E (sim w) a with
    | (inr (obs, reward, done), st) =>
        (Ok (obs, reward, done),
         mkWorld st (heap w) (stdout w) (trace w ++ [Step a obs reward done]))
    | (inl e, st) => (Raise e, mkWorld st (heap w) (stdout w) (trace w))
    end.

(** [env.render()] *)
Definition env_render : Py E unit :=
  fun w => print (Out_render (render E (sim w))) w.

(** Store a new one-dimensional array. *)
Definition alloc (a : list Q) : Py E loc :=
  fun w => (Ok (length (heap w)), mkWorld (sim w) (heap w ++ [a]) (stdout w) (trace w)).

(** [np.zeros(n)] *)
Definition np_zeros (n : nat) : Py E loc := alloc (replicate n 0%Q).

(** [a[i]] for a one-dimensional array and an index [i >= 0]; an object
    that is no array cannot be subscripted. *)
Definition getitem (a : loc) (i : nat) : Py E Q :=
  fun w =>
    match heap w !! a with
    | None => (Raise TypeError, w)
    | Some arr =>
        match arr !! i with
        | Some x => (Ok x, w)
        | None => (Raise IndexError, w)
        end
    end.

(** Python compiles the whole text of a function before any of it runs,
    and refuses a compound statement ([for], [while], [if], [def]) whose
    suite holds no statement; a comment is no statement.  The error is
    "IndentationError: expected an indented block".  [suites] gives the
    number of statements in the suite of each compound statement of the
    function, [body] what the function does once it is compiled. *)
Definition compiled {A} (suites : list nat) (body : Py E A) : Py E A :=
  if forallb (fun n => 0 <? n) suites then body else raise IndentationError.
End Interpreter.

(** [int(x)] of a float: truncation towards zero. *)
Definition py_int (x : Q) : Z := Z.quot (Qnum x) (Z.pos (Qden x)).

(** [x < y] on floats. *)
Definition Qltb (x y : Q) : bool := negb (Qle_bool y x).

(** A two-dimensional array with its shape. *)
Record matrix : Type := mkMatrix {
  nrows : nat;
  ncols : nat;
  rows : list (list Q)
}.

(** [np.zeros((n, m))] *)
Definition np_zeros2 (n m : nat) : matrix := mkMatrix n m (replicate n (replicate m 0%Q)).

(** [np.argmax] of a non-empty row: the index of the first occurrence of
    the maximum. *)
Fixpoint argmax_from (best_i : nat) (best : Q) (i : nat) (l : list Q) : nat :=
  match l with
  | [] => best_i
  | x :: rest =>
      if Qltb best x then argmax_from i x (S i) rest
      else argmax_from best_i best (S i) rest
  end.

Definition argmax (l : list Q) : nat :=
  match l with
  | [] => 0
  | x :: rest => argmax_from 0 x 1 rest
  end.

(** [np.mean(l)]; numpy answers nan for an empty list, which has no
    counterpart in [Q] (the quotient by zero is 0 there). *)
Definition np_mean (l : list Q) : Q :=
  (foldl Qplus 0 l / inject_Z (Z.of_nat (length l)))%Q.

Section Numpy2.
Context {E : Env}.

(** [q[s]]: a row of a two-dimensional array. *)
Definition getrow (q : matrix) (s : nat) : Py E (list Q) :=
  match rows q !! s with
  | Some r => ret r
  | None => raise IndexError
  end.

(** [np.argmax(q, axis=1)]: numpy refuses an empty reduction axis. *)
Definition np_argmax_axis1 (q : matrix) : Py E loc :=
  if Nat.eqb (ncols q) 0 then raise ValueError
  else alloc (map (fun r => inject_Z (Z.of_nat (argmax r))) (rows q)).
End Numpy2.

(** [range(n)] *)
Definition range (n : nat) : list nat := seq 0 n.

(** [l[-k:]] *)
Definition last_k {A} (k : nat) (l : list A) : list A := drop (length l - k) l.

(** ** The notebook's functions *)

(** The locals [max_iterations] and [eps] of [value_iteration]. *)
Set Warnings "-abstract-large-number".
Definition max_iterations : nat := 100000.
Set Warnings "abstract-large-number".
Definition eps : Q := 1 # (10 ^ 30).

Section Notebook.
Context (E : Env).

(** *** [value_iteration(env, gamma = 1.0)] *)

Definition value_iteration (gamma : Q) : Py E loc :=
  do v <- np_zeros (observation_space_n E) ;;
  run for_in (range max_iterations) (fun i (_ : unit) =>
    let delta := 0%Q in
    (* TODO block: comments only *)
    if Qltb delta eps then
      run print (Out_converged (i + 1)) ;;
      ret (Break, tt)
    else ret (Next, tt)) tt ;;
  ret v.

(** *** [extract_policy(v, gamma = 1.0)]

    The function reads the module-level [env], the environment the
    notebook also passes to [value_iteration] and [evaluate_policy].  The
    suite of its [for] loop is the TODO block alone, comments and blank
    lines: it holds no statement, and the [return] that follows is
    indented like the [for].  Python therefore refuses the [def] when the
    cell is compiled and no function object is made; every attempt to run
    the function ends with the compiler's error, nothing of the body
    having run. *)

Definition extract_policy (v : loc) (gamma : Q) : Py E loc :=
  compiled [0]  (* the suite of [for s in range(env.observation_space.n):] *)
    (do policy <- np_zeros (observation_space_n E) ;;
     run for_in (range (observation_space_n E)) (fun s (_ : unit) =>
       (* TODO block: comments only *)
       ret (Next, tt)) tt ;;
     ret policy).

(** *** [evaluate_policy(env, policy, render = False)] *)

(** The body of its [while True] loop, on the locals [obs] and
    [total_reward]. *)
Definition evaluate_policy_body (policy : loc) (render : bool)
  : nat * Q -> Py E (ctl * (nat * Q)) :=
  fun '(obs, total_reward) =>
    run (if render then env_render else ret tt) ;;
    do a <- getitem policy obs ;;
    do '(obs, reward, done) <- env_step (PyInt (py_int a)) ;;
    let total_reward := (total_reward + reward)%Q in
    if done then ret (Break, (obs, total_reward))
    else ret (Next, (obs, total_reward)).

Definition evaluate_policy (fuel : nat) (policy : loc) (render : bool) : Py E Q :=
  do obs <- env_reset ;;
  let total_reward := 0%Q in
  do '(obs, total_reward) <-
    while_true fuel (evaluate_policy_body policy render) (obs, total_reward) ;;
  ret total_reward.

(** The score the cells of the notebook print:
    [np.mean([evaluate_policy(env, policy) for _ in range(n)])], with
    [n = 100] there. *)
Definition policy_average_score (fuel : nat) (policy : loc) (n : nat) : Py E Q :=
  do scores <-
    for_in (range n) (fun _ scores =>
      do score <- evaluate_policy fuel policy false ;;
      ret (Next, scores ++ [score])) [] ;;
  ret (np_mean scores).

(** *** [choose_action(q, eps, num_actions)] *)

(** Reading a name which the function body never assigns and which is
    not a parameter: Python looks it up among the module's globals (no
    builtin is called [action]). *)
Definition load_global (G : gmap string pyobj) (name : string) : Py E pyobj :=
  match G !! name with
  | Some v => ret v
  | None => raise (NameError name)
  end.

Definition choose_action (G : gmap string pyobj) (q : list Q) (eps : Q) (num_actions : nat)
  : Py E pyobj :=
  (* TODO block: comments only *)
  do action <- load_global G "action" ;;
  ret action.

(** *** [q_learning(env, alpha, gamma, eps, iter_max, t_max)]

    [choose_action] is a global name of the module, looked up at each
    call: [q_learning_with] takes its binding as [choose].  The row
    [q_table[s]] is handed over by value, where numpy hands over a view
    of the table: a binding that assigns into its first argument would
    change the table, and is not among the bindings [choose] ranges over.
    The notebook's own [choose_action] does not touch its argument. *)

Section QLearning.
Variable choose : list Q -> Q -> nat -> Py E pyobj.

(** The local variables of an episode. *)
Definition locals : Type := (matrix * list Q * Q * nat)%type.

(** The inner loop, [for j in range(t_max)]. *)
Definition q_learning_episode (eps : Q) (t_max : nat) (l : locals) : Py E locals :=
  for_in (range t_max) (fun j '(q_table, total_reward_list, total_reward, s) =>
    do row <- getrow q_table s ;;
    do action <- choose row eps (action_space_n E) ;;
    do '(next_s, reward, done) <- env_step action ;;
    let total_reward := (total_reward + reward)%Q in
    (* TODO block: comments only *)
    let s := next_s in
    if done then
      let total_reward_list := total_reward_list ++ [total_reward] in
      ret (Break, (q_table, total_reward_list, total_reward, s))
    else ret (Next, (q_table, total_reward_list, total_reward, s))) l.

(** The body of the function up to its [return]: the local variables
    [q_table] and [total_reward_list] after the last episode. *)
Definition q_learning_locals (alpha gamma eps : Q) (iter_max t_max : nat)
  : Py E (matrix * list Q) :=
  let q_table := np_zeros2 (observation_space_n E) (action_space_n E) in
  let total_reward_list := [] in
  for_in (range iter_max) (fun i '(q_table, total_reward_list) =>
    let total_reward := 0%Q in
    do s <- env_reset ;;
    do '(q_table, total_reward_list, total_reward, s) <-
      q_learning_episode eps t_max (q_table, total_reward_list, total_reward, s) ;;
    run (if i mod 100 =? 0
         then print (Out_progress (i + 1) (last_k 100 total_reward_list))
         else ret tt) ;;
    ret (Next, (q_table, total_reward_list)))
  (q_table, total_reward_list).

Definition q_learning_with (alpha gamma eps : Q) (iter_max t_max : nat) : Py E loc :=
  do '(q_table, _) <- q_learning_locals alpha gamma eps iter_max t_max ;;
  np_argmax_axis1 q_table.
End QLearning.

(** [q_learning] as the notebook has it, with the notebook's
    [choose_action] and the module's globals [G]. *)
Definition q_learning (G : gmap string pyobj) (alpha gamma eps : Q) (iter_max t_max : nat)
  : Py E loc :=
  q_learning_with (choose_action G) alpha gamma eps iter_max t_max.
End Notebook.

Arguments value_iteration E gamma w : rename.
Arguments extract_policy E v gamma w : rename.
Arguments evaluate_policy_body E policy render l w : rename.
Arguments evaluate_policy E fuel policy render w : rename.
Arguments policy_average_score E fuel policy n w : rename.
Arguments choose_action E G q eps num_actions w : rename.
Arguments q_learning_episode E choose eps t_max l w : rename.
Arguments q_learning_locals E choose alpha gamma eps iter_max t_max w : rename.
Arguments q_learning_with E choose alpha gamma eps iter_max t_max w : rename.
Arguments q_learning E G alpha gamma eps iter_max t_max w : rename.

(** ** The module's global names *)

(** The names bound at module level by the cells of the notebook
    (imports, function definitions and assignments). *)
Definition notebook_names : list string :=
  [ "register"; "np"; "gym"; "wrappers";
    "evaluate_policy"; "value_iteration"; "extract_policy";
    "env_name"; "gamma"; "env"; "optimal_v"; "optimal_policy"; "optimal_policy_score";
    "choose_action"; "q_learning"; "solution_policy"; "solution_policy_score" ].

(** The globals of the module, whatever the objects bound to its names. *)
Definition module_globals (binding : string -> pyobj) : gmap string pyobj :=
  list_to_map (map (fun name => (name, binding name)) notebook_names).

(** ** Reading a trace *)

Definition is_reset (i : interaction) : bool :=
  match i with Reset _ => true | Step _ _ _ _ => false end.

Definition is_step (i : interaction) : bool :=
  match i with Reset _ => false | Step _ _ _ _ => true end.

(** A step at which the environment reported [done]. *)
Definition is_done (i : interaction) : bool :=
  match i with Reset _ => false | Step _ _ _ done => done end.

Fixpoint count (f : interaction -> bool) (tr : list interaction) : nat :=
  match tr with
  | [] => 0
  | i :: rest => (if f i then 1 else 0) + count f rest
  end.

(** The steps of one episode of the environment [E] run under the policy
    array [pol] from the state [st] of the environment and the observation
    [obs]: each action is [int(pol[obs])] for the observation before it,
    the environment answers each step, and the episode ends with the first
    step that reports [done], leaving the environment in [st_end]. *)
Fixpoint rollout (E : Env) (pol : list Q) (st : St E) (obs : nat)
    (steps : list interaction) (st_end : St E) : Prop :=
  match steps with
  | Step a obs' reward done :: rest =>
      (exists x, pol !! obs = Some x /\ a = PyInt (py_int x)) /\
      exists st', step E st a = (inr (obs', reward, done), st') /\
        if done then rest = [] /\ st_end = st'
        else rollout E pol st' obs' rest st_end
  | _ => False
  end.

(** The rewards of the steps, added up in order from [acc]; a reset
    starts again from 0. *)
Fixpoint total_from (acc : Q) (tr : list interaction) : Q :=
  match tr with
  | [] => acc
  | Reset _ :: rest => total_from 0%Q rest
  | Step _ _ reward _ :: rest => total_from (acc + reward)%Q rest
  end.

(** The accumulated reward of each episode of a trace that ended with a
    step reporting [done], in order; [acc] is the reward accumulated
    since the last reset. *)
Fixpoint history_from (acc : Q) (tr : list interaction) : list Q :=
  match tr with
  | [] => []
  | Reset _ :: rest => history_from 0%Q rest
  | Step _ _ reward done :: rest =>
      if done then (acc + reward)%Q :: history_from (acc + reward)%Q rest
      else history_from (acc + reward)%Q rest
  end.

(** ** Assumptions on the collaborators *)

(** A binding of [choose_action] that does not call the environment. *)
Definition chooser_silent {E : Env} (choose : list Q -> Q -> nat -> Py E pyobj) : Prop :=
  forall q eps n w, trace (choose q eps n w).2 = trace w.

(** A binding of [choose_action] that returns an action. *)
Definition chooser_returns {E : Env} (choose : list Q -> Q -> nat -> Py E pyobj) : Prop :=
  forall q eps n w, exists a, (choose q eps n w).1 = Ok a.

(** An environment that answers every step, with observations in range. *)
Definition env_answers (E : Env) : Prop :=
  (forall st, (reset E st).1 < observation_space_n E) /\
  (forall st a, exists obs reward done st',
      step E st a = (inr (obs, reward, done), st') /\ obs < observation_space_n E).

(** An environment that never reports [done]. *)
Definition never_done (E : Env) : Prop :=
  forall st a obs reward done st',
    step E st a = (inr (obs, reward, done), st') -> done = false.

(** ** What the exercise asks for (section 4 of the specification)

    These definitions follow the words of the specification, not the
    notebook; they are compared with the notebook's functions below. *)

Module Spec.

Definition Qmax (x y : Q) : Q := if Qltb x y then y else x.

Definition magnitude (x : Q) : Q := if Qltb x 0 then (- x)%Q else x.

Definition indicator (done : bool) : Q := if done then 1%Q else 0%Q.

Section Bellman.
Context (E : Env) (st : St E) (discount : Q).

Definition value_at (V : list Q) (s : nat) : Q := default 0%Q (V !! s).

(** p * (r + discount * V(s') * (1 - done)) *)
Definition term (V : list Q) (t : transition) : Q :=
  let '(p, s', r, done) := t in
  (p * (r + discount * value_at V s' * (1 - indicator done)))%Q.

(** Q(s,a), the sum of the terms over the entries of the model. *)
Definition backup (V : list Q) (s a : nat) : Q :=
  foldr Qplus 0%Q (map (term V) (P E st s a)).

(** The maximum of Q(s,a) over the actions; 0 for a state without
    actions. *)
Definition best (V : list Q) (s : nat) : Q :=
  match map (backup V s) (range (action_space_n E)) with
  | [] => 0%Q
  | q :: qs => foldl Qmax q qs
  end.

(** One sweep over the states, the table changed in place; the second
    component is delta. *)
Definition sweep (V : list Q) : list Q * Q :=
  foldl (fun '(V, delta) s =>
           let v := best V s in
           (<[s := v]> V, Qmax delta (magnitude (v - value_at V s))))
        (V, 0%Q) (range (observation_space_n E)).

(** Sweeps until delta is below the tolerance, [n] of them at most; the
    iteration count is reported on convergence. *)
Fixpoint sweeps (tolerance : Q) (n i : nat) (V : list Q) : list Q * option nat :=
  match n with
  | O => (V, None)
  | S n' =>
      let '(V', delta) := sweep V in
      if Qltb delta tolerance then (V', Some (i + 1))
      else sweeps tolerance n' (S i) V'
  end.

Definition value_iteration (tolerance : Q) (max_iterations : nat) : list Q * option nat :=
  sweeps tolerance max_iterations 0 (replicate (observation_space_n E) 0%Q).

(** For each state the action of the largest Q(s,a) under the final
    table, the lowest index first among equals. *)
Definition extract_policy (V : list Q) : list nat :=
  map (fun s => argmax (map (backup V s) (range (action_space_n E))))
      (range (observation_space_n E)).
End Bellman.

Definition cell (q : matrix) (s a : nat) : Q :=
  default 0%Q (r ← rows q !! s; r !! a).

Definition row_max (q : matrix) (s : nat) : Q :=
  match rows q !! s with
  | Some (x :: r) => foldl Qmax x r
  | _ => 0%Q
  end.

(** Q(s,a) <- Q(s,a) + learning_rate * (r + discount * max_a' Q(s',a') * (1 - done) - Q(s,a)) *)
Definition q_update (learning_rate discount : Q) (q : matrix)
    (s a : nat) (r : Q) (s' : nat) (done : bool) : matrix :=
  let new :=
    (cell q s a
     + learning_rate * (r + discount * row_max q s' * (1 - indicator done) - cell q s a))%Q in
  mkMatrix (nrows q) (ncols q) (alter (fun row => <[a := new]> row) s (rows q)).

(** The greedy branch of [choose_action]: the argmax of the row, the
    lowest index first. *)
Definition choose_greedy {E : Env} (q : list Q) (epsilon : Q) (action_count : nat)
  : Py E pyobj :=
  ret (PyInt (Z.of_nat (argmax q))).

End Spec.

(** ** Small environments *)

(** A world with nothing allocated, printed or done yet. *)
Definition fresh (E : Env) (st : St E) : World E := mkWorld st [] [] [].

(** The chain of two states and two actions of section 8: reward 1 only
    on reaching state 1 from state 0 by action 0; state 1 is terminal. *)
Definition chain_P (st s a : nat) : list transition :=
  match s, a with
  | 0, 0 => [(1%Q, 1, 1%Q, true)]
  | 0, 1 => [(1%Q, 0, 0%Q, false)]
  | 1, 0 => [(1%Q, 1, 0%Q, true)]
  | 1, 1 => [(1%Q, 1, 0%Q, true)]
  | _, _ => []
  end.

Definition chain_step (st : nat) (a : pyobj) : (exn + nat * Q * bool) * nat :=
  match a with
  | PyInt 0 =>
      match st with
      | 0 => (inr (1, 1%Q, true), 1)
      | _ => (inr (1, 0%Q, true), 1)
      end
  | PyInt 1 =>
      match st with
      | 0 => (inr (0, 0%Q, false), 0)
      | _ => (inr (1, 0%Q, true), 1)
      end
  | _ => (inl KeyError, st)
  end.

Definition chain_env : Env :=
  {| St := nat;
     observation_space_n := 2;
     action_space_n := 2;
     P := chain_P;
     reset := fun _ => (0, 0);
     step := chain_step;
     render := fun st => match st with 0 => "[S]G" | _ => "S[G]" end |}.

(** One state, one action, and an episode that never ends. *)
Definition loop_env : Env :=
  {| St := unit;
     observation_space_n := 1;
     action_space_n := 1;
     P := fun _ _ _ => [(1%Q, 0, 0%Q, false)];
     reset := fun _ => (0, tt);
     step := fun _ _ => (inr (0, 0%Q, false), tt);
     render := fun _ => "." |}.

(** One state and one step per episode; the reward depends on the state
    of the object (as with a random generator): 1 in the first, third, ...
    episode, 0 in the others. *)
Definition alternating_env : Env :=
  {| St := nat;
     observation_space_n := 1;
     action_space_n := 1;
     P := fun _ _ _ => [((1 # 2)%Q, 0, 1%Q, true); ((1 # 2)%Q, 0, 0%Q, true)];
     reset := fun n => (0, S n);
     step := fun n _ => (inr (0, if Nat.odd n then 1%Q else 0%Q, true), n);
     render := fun _ => "." |}.

(** One state, one action and reward 1 at each step; the first, third,
    ... episode ends with its first step, the others never end. *)
Definition flaky_env : Env :=
  {| St := nat;
     observation_space_n := 1;
     action_space_n := 1;
     P := fun _ _ _ => [((1 # 2)%Q, 0, 1%Q, true); ((1 # 2)%Q, 0, 1%Q, false)];
     reset := fun n => (0, S n);
     step := fun n _ => (inr (0, 1%Q, Nat.odd n), n);
     render := fun _ => "." |}.

(** An environment without states and without actions. *)
Definition empty_env : Env :=
  {| St := unit;
     observation_space_n := 0;
     action_space_n := 0;
     P := fun _ _ _ => [];
     reset := fun _ => (0, tt);
     step := fun _ _ => (inl KeyError, tt);
     render := fun _ => "" |}.

(** The objects bound to the module's names do not matter below. *)
Definition some_binding (name : string) : pyobj := PyOther name.

(** A world in which the policy array [[0.]] is stored at location 0. *)
Definition with_policy_0 (E : Env) (st : St E) : World E := mkWorld st [[0%Q]] [] [].

(** ** More of the reinforcement learning notebook *)

(** A binding of [choose_action] that prints nothing. *)
Definition chooser_quiet {E : Env} (choose : list Q -> Q -> nat -> Py E pyobj) : Prop :=
  forall q eps n w, stdout (choose q eps n w).2 = stdout w.

(** The events of a trace up to the end of its episode number [k]
    (episodes are counted from 1, each starts with a reset): everything
    before the reset number [k + 1]. *)
Fixpoint first_episodes (k : nat) (tr : list interaction) : list interaction :=
  match tr with
  | [] => []
  | Reset obs :: rest =>
      match k with
      | 0 => []
      | S k' => Reset obs :: first_episodes k' rest
      end
  | Step a obs reward done :: rest => Step a obs reward done :: first_episodes k rest
  end.

(** The line [q_learning] is to print after the episode number
    [iteration] of the trace [tr]: the rewards recorded up to the end of
    that episode, the last 100 of them when there are more. *)
Definition progress_line (tr : list interaction) (iteration : nat) (o : output) : Prop :=
  exists older window,
    o = Out_progress iteration window /\
    history_from 0 (first_episodes iteration tr) = older ++ window /\
    length window = Nat.min 100 (length (older ++ window)).

(** The frame [env.render()] prints in a state of the environment. *)
Definition frame_of (E : Env) (st : St E) : string := render E st.

(** ** The sampler of the GAN notebook (09_gan.ipynb) *)

(** [range(a, b)] on integers: empty when [b <= a]. *)
Definition py_range (a b : Z) : list Z :=
  map (fun i => (a + Z.of_nat i)%Z) (seq 0 (Z.to_nat (b - a))).

Module ChunkSampler.

Record t : Type := init {
  num_samples : Z;
  start : Z
}.

(** [__iter__]: [iter(range(self.start, self.start + self.num_samples))] *)
Definition iter (self : t) : list Z :=
  py_range (start self) (start self + num_samples self).

(** [__len__] *)
Definition len (self : t) : Z := num_samples self.

End ChunkSampler.

Definition NUM_TRAIN : Z := 50000.
Definition NUM_VAL : Z := 5000.

(** The samplers of [loader_train] and [loader_val]. *)
Definition sampler_train : ChunkSampler.t := ChunkSampler.init NUM_TRAIN 0.
Definition sampler_val : ChunkSampler.t := ChunkSampler.init NUM_VAL NUM_TRAIN.

(** ** Letters and indices of the name notebook (sequence classification
       and generation with LSTMs) *)

(** [x <- c ; k] on outcomes without a world. *)
Definition and_then {A B} (c : outcome A) (k : A -> outcome B) : outcome B :=
  match c with
  | Ok a => k a
  | Raise e => Raise e
  | OutOfFuel => OutOfFuel
  end.

(** [list(s)]: the characters of a string, each a string of length one. *)
Definition chars (s : string) : list string :=
  map (fun a => String a EmptyString) (String.list_ascii_of_string s).

(** [dict(pairs)]: a later pair with the same key replaces an earlier one. *)
Definition py_dict {K V} `{Countable K} (pairs : list (K * V)) : gmap K V :=
  foldl (fun d kv => <[kv.1 := kv.2]> d) ∅ pairs.

(** [d[k]] *)
Definition getkey {K V} `{Countable K} (d : gmap K V) (k : K) : outcome V :=
  match d !! k with
  | Some v => Ok v
  | None => Raise KeyError
  end.

(** [[d[k] for k in ks]], the keys looked up from left to right. *)
Fixpoint getkeys {K V} `{Countable K} (d : gmap K V) (ks : list K) : outcome (list V) :=
  match ks with
  | [] => Ok []
  | k :: rest =>
      and_then (getkey d k) (fun v =>
      and_then (getkeys d rest) (fun vs => Ok (v :: vs)))
  end.

(** [string.ascii_letters + " .,;'"] *)
Definition all_letters : string :=
  "abcdefghijklmnopqrstuvwxyzABCDEFGHIJKLMNOPQRSTUVWXYZ .,;'".

Definition n_letters : nat := String.length all_letters.

(** [dict(zip(list(all_letters), list(range(n_letters))))] *)
Definition letter2idx : gmap string nat :=
  py_dict (zip (chars all_letters) (range n_letters)).

(** [line_to_idxs(line)] of part 1; the tensor of integers is its list. *)
Definition line_to_idxs (line : string) : outcome (list nat) :=
  getkeys letter2idx (chars line).

Module Generation.

(** The dictionary after [letter2idx['<SOS>'] = n_letters] and
    [letter2idx['<EOS>'] = n_letters + 1]. *)
Definition letter2idx : gmap string nat :=
  <["<EOS>" := n_letters + 1]> (<["<SOS>" := n_letters]> letter2idx).

(** [{value: key for key, value in letter2idx.items()}] *)
Definition idx2letter : gmap nat string :=
  py_dict (map (fun kv => (kv.2, kv.1)) (map_to_list letter2idx)).

(** [line_to_idxs(line)] of part 2. *)
Definition line_to_idxs (line : string) : outcome (list nat) :=
  and_then (getkeys letter2idx (chars line)) (fun letter_idxs =>
  and_then (getkey letter2idx "<SOS>") (fun sos =>
  and_then (getkey letter2idx "<EOS>") (fun eos =>
  Ok ([sos] ++ letter_idxs ++ [eos])))).

(** The pair the training cell hands to [train(targets, inputs)]:
    [line_tensor[1:]] and [line_tensor[:-1]]. *)
Definition training_pair (line_tensor : list nat) : list nat * list nat :=
  (drop 1 line_tensor, take (length line_tensor - 1) line_tensor).

Definition max_length : nat := 20.

Section Generate.
Context {E : Env}.
(** The network is a collaborator: [model.init_hidden()] and
    [model(torch.tensor([chars_input]))], whose answer [generate] does not
    read.  [chars_input] is an index or Python's [None]. *)
Variable init_hidden : Py E unit.
Variable model : option nat -> Py E unit.

(** [for x in xs: body] over any list. *)
Fixpoint for_each {A T : Type} (xs : list A) (body : A -> T -> Py E (ctl * T)) (s : T)
  : Py E T :=
  match xs with
  | [] => ret s
  | x :: rest =>
      do r <- body x s ;;
      match r with
      | (Break, s') => ret s'
      | (Next, s') => for_each rest body s'
      end
  end.

(** A world-free outcome as a call. *)
Definition lift {A} (o : outcome A) : Py E A := fun w => (o, w).

(** [output_str += sample_char]: only a string can be added to a string. *)
Definition add_str (output_str : string) (sample_char : option string) : outcome string :=
  match sample_char with
  | Some c => Ok (output_str ++ c)%string
  | None => Raise TypeError
  end.

(** [generate(start_chars='', temperature=0.5)]; the locals of the loops
    are [chars_input] and [output_str].  [None] is Python's [None]. *)
Definition generate (start_chars : string) (temperature : Q) : Py E string :=
  run init_hidden ;;
  let start_char := "<SOS>" in
  do chars_input <- lift (getkey letter2idx start_char) ;;
  let output_str := "" in
  do '(chars_input, output_str) <-
    for_each (chars start_chars) (fun char '(chars_input, output_str) =>
      run model chars_input ;;
      do chars_input <- lift (getkey letter2idx char) ;;
      let output_str := (output_str ++ char)%string in
      ret (Next, (Some chars_input, output_str))) (Some chars_input, output_str) ;;
  do '(chars_input, output_str) <-
    for_in (range max_length) (fun i '(chars_input, output_str) =>
      run model chars_input ;;
      (* TODO block *)
      let output_distribution : option unit := None in
      let sample_char_id : option nat := None in
      let sample_char : option string := None in
      if bool_decide (sample_char = Some "<EOS>") then
        ret (Break, (chars_input, output_str))
      else
        do output_str <- lift (add_str output_str sample_char) ;;
        let chars_input := sample_char_id in
        ret (Next, (chars_input, output_str))) (chars_input, output_str) ;;
  ret output_str.
End Generate.

End Generation.

(** ** Reasoning about calls *)

Section Logic.
Context {E : Env}.

(** [post c w R]: the call [c] made in the world [w] ends with an outcome
    and a world related by [R]. *)
Definition post {A} (c : Py E A) (w : World E) (R : outcome A -> World E -> Prop) : Prop :=
  R (c w).1 (c w).2.

(** The postcondition of the first half of a sequence: go on after a
    return, stop with [R] after anything else. *)
Definition after {A B} (K : A -> World E -> Prop) (R : outcome B -> World E -> Prop)
  : outcome A -> World E -> Prop :=
  fun o w =>
    match o with
    | Ok a => K a w
    | Raise e => R (Raise e) w
    | OutOfFuel => R OutOfFuel w
    end.

(** The postcondition of a loop body: the invariant [I] after falling
    through, [R] after a [break]. *)
Definition body_post {T} (I : T -> World E -> Prop) (R : outcome T -> World E -> Prop)
  : outcome (ctl * T) -> World E -> Prop :=
  after (fun r w => match r with
                    | (Next, s) => I s w
                    | (Break, s) => R (Ok s) w
                    end) R.

Lemma post_ret {A} (a : A) w (R : outcome A -> World E -> Prop) :
  R (Ok a) w -> post (ret a) w R.
Proof. exact (fun H => H). Qed.

Lemma post_raise {A} e w (R : outcome A -> World E -> Prop) :
  R (Raise e) w -> post (raise e) w R.
Proof. exact (fun H => H). Qed.

Lemma post_bind {A B} (c : Py E A) (k : A -> Py E B) w R :
  post c w (after (fun a w1 => post (k a) w1 R) R) -> post (bind c k) w R.
Proof.
  unfold post, bind, after. destruct (c w) as [[a|e|] w1]; simpl; auto.
Qed.

Lemma post_if {A} (b : bool) (c1 c2 : Py E A) w R :
  post c1 w R -> post c2 w R -> post (if b then c1 else c2) w R.
Proof. destruct b; auto. Qed.

Lemma post_weaken {A} (c : Py E A) w (R R' : outcome A -> World E -> Prop) :
  (forall o w', R o w' -> R' o w') -> post c w R -> post c w R'.
Proof. unfold post. auto. Qed.

Lemma post_and {A} (c : Py E A) w (R R' : outcome A -> World E -> Prop) :
  post c w R -> post c w R' -> post c w (fun o w' => R o w' /\ R' o w').
Proof. unfold post. auto. Qed.

Lemma while_true_S {T} (fuel : nat) (body : T -> Py E (ctl * T)) (s : T) (w : World E) :
  while_true (S fuel) body s w =
    match body s w with
    | (Ok (Break, s'), w') => (Ok s', w')
    | (Ok (Next, s'), w') => while_true fuel body s' w'
    | (Raise e, w') => (Raise e, w')
    | (OutOfFuel, w') => (OutOfFuel, w')
    end.
Proof.
  simpl. unfold bind. destruct (body s w) as [[[[|] s']|e|] w']; reflexivity.
Qed.

(** The rule of the [for] loop: [I k] holds before the iteration number
    [k] (counted from [k0]), and [R] is reached by a [break], by an
    exception, or by [I] after the last iteration. *)
Lemma post_for_in {T} (I : nat -> T -> World E -> Prop) (R : outcome T -> World E -> Prop)
    (body : nat -> T -> Py E (ctl * T)) (xs : list nat) :
  forall k0 s w,
    I k0 s w ->
    (forall k x s w, k0 <= k < k0 + length xs -> I k s w ->
       post (body x s) w (body_post (I (S k)) R)) ->
    (forall s w, I (k0 + length xs) s w -> R (Ok s) w) ->
    post (for_in xs body s) w R.
Proof.
  induction xs as [|x xs IH]; intros k0 s w HI Hbody Hend.
  - simpl. apply post_ret. apply Hend. now rewrite Nat.add_0_r.
  - simpl. apply post_bind.
    assert (Hx : post (body x s) w (body_post (I (S k0)) R)).
    { apply Hbody; [simpl; lia | exact HI]. }
    revert Hx. apply post_weaken. intros [[c s']|e|] w'; simpl; auto.
    destruct c; simpl; auto.
    intros HI'. apply (IH (S k0)); auto.
    + intros k y s1 w1 Hk. apply Hbody. simpl. lia.
    + intros s1 w1 H1. apply Hend. simpl length.
      now replace (k0 + S (length xs)) with (S k0 + length xs) by lia.
Qed.

(** The rule of [for i in range(n)], the invariant indexed by [i]. *)
Lemma post_for_range {T} (I : nat -> T -> World E -> Prop)
    (R : outcome T -> World E -> Prop) (body : nat -> T -> Py E (ctl * T)) (n : nat) :
  forall s w,
    I 0 s w ->
    (forall k s w, k < n -> I k s w -> post (body k s) w (body_post (I (S k)) R)) ->
    (forall s w, I n s w -> R (Ok s) w) ->
    post (for_in (range n) body s) w R.
Proof.
  unfold range.
  assert (Hgen : forall m a s w,
            a + m = n -> I a s w -> 
            (forall k s w, k < n -> I k s w -> post (body k s) w (body_post (I (S k)) R)) ->
            (forall s w, I n s w -> R (Ok s) w) ->
            post (for_in (seq a m) body s) w R).
  { induction m as [|m IH]; intros a s w Ham HI Hbody Hend; simpl.
    - apply post_ret. apply Hend. now replace n with a by lia.
    - apply post_bind.
      assert (Hx : post (body a s) w (body_post (I (S a)) R)).
      { apply Hbody; [lia | exact HI]. }
      revert Hx. apply post_weaken. intros [[c s']|e|] w'; simpl; auto.
      destruct c; simpl; auto.
      intros HI'. apply (IH (S a)); auto. lia. }
  intros s w. apply Hgen. reflexivity.
Qed.
End Logic.

(** ** Basic facts *)

Lemma range_S (n : nat) : range (S n) = 0 :: seq 1 n.
Proof. reflexivity. Qed.

Lemma length_range (n : nat) : length (range n) = n.
Proof. apply length_seq. Qed.

Lemma max_iterations_pos : exists n, max_iterations = S n.
Proof.
  assert (H : Nat.eqb max_iterations 0 = false) by (vm_compute; reflexivity).
  destruct max_iterations as [|n]; [discriminate H | now exists n].
Qed.

Lemma module_globals_action (binding : string -> pyobj) :
  module_globals binding !! "action" = None.
Proof.
  unfold module_globals. apply not_elem_of_list_to_map_1.
  rewrite <- list_fmap_compose. simpl.
  intros H%list_elem_of_In. simpl in H. intuition discriminate.
Qed.

Lemma count_app (f : interaction -> bool) (a b : list interaction) :
  count f (a ++ b) = count f a + count f b.
Proof. induction a as [|i a IH]; simpl; [reflexivity | rewrite IH; lia]. Qed.

Lemma count_le_length (f : interaction -> bool) (tr : list interaction) :
  count f tr <= length tr.
Proof. induction tr as [|i tr IH]; simpl; [lia | destruct (f i); lia]. Qed.

Lemma count_step_reset (tr : list interaction) :
  count is_step tr + count is_reset tr = length tr.
Proof. induction tr as [|[o|a o r d] tr IH]; simpl; lia. Qed.

Lemma length_history_from (acc : Q) (tr : list interaction) :
  length (history_from acc tr) = count is_done tr.
Proof.
  revert acc. induction tr as [|[o|a o r d] tr IH]; intros acc; simpl; auto.
  destruct d; simpl; auto.
Qed.

(** A run of steps only, then one more step. *)
Lemma history_from_snoc (acc : Q) (tr : list interaction) a o r d :
  count is_reset tr = 0 ->
  history_from acc (tr ++ [Step a o r d]) =
    history_from acc tr ++ (if d then [(total_from acc tr + r)%Q] else []).
Proof.
  revert acc. induction tr as [|[o'|a' o' r' d'] tr IH]; intros acc Hc; simpl in *.
  - destruct d; reflexivity.
  - discriminate.
  - rewrite (IH _ Hc). destruct d'; reflexivity.
Qed.

Lemma total_from_snoc (acc : Q) (tr : list interaction) a o r d :
  total_from acc (tr ++ [Step a o r d]) = (total_from acc tr + r)%Q.
Proof.
  revert acc. induction tr as [|[o'|a' o' r' d'] tr IH]; intros acc; simpl; auto.
Qed.

(** Episodes one after the other. *)
Lemma history_from_episode (acc : Q) (tr : list interaction) o (ep : list interaction) :
  history_from acc (tr ++ Reset o :: ep) = history_from acc tr ++ history_from 0 ep.
Proof.
  revert acc. induction tr as [|[o'|a' o' r' d'] tr IH]; intros acc; simpl; auto.
  destruct d'; simpl; now rewrite IH.
Qed.

(** ** The loops of q_learning *)

Section QLearningFacts.
Context (E : Env) (choose : list Q -> Q -> nat -> Py E pyobj).
Hypothesis choose_silent : chooser_silent choose.

(** What one episode does to the trace and to the locals, whatever its
    outcome: it takes steps only, [t_max] of them at most; when the
    episode returns, the Q-table is the one it started with, the reward
    list has grown by the accumulated reward exactly if a step reported
    [done], and an episode without such a step took all [t_max] steps. *)
Lemma episode_post (eps : Q) (t_max : nat) (q : matrix) (l : list Q) (tot : Q) (s : nat)
    (w : World E) :
  post (q_learning_episode E choose eps t_max (q, l, tot, s)) w
    (fun o w' => exists evs,
       trace w' = trace w ++ evs /\ count is_reset evs = 0 /\ length evs <= t_max /\
       match o with
       | Ok (q', l', tot', s') =>
           q' = q /\ l' = l ++ history_from tot evs /\ tot' = total_from tot evs /\
           count is_done evs <= 1 /\ (count is_done evs = 0 -> length evs = t_max)
       | _ => True
       end).
Proof.
  unfold q_learning_episode.
  apply (post_for_in
    (fun k '(q', l', tot', s') w' => exists evs,
       trace w' = trace w ++ evs /\ count is_reset evs = 0 /\ length evs = k /\
       count is_done evs = 0 /\ q' = q /\ l' = l /\ tot' = total_from tot evs)) with (k0 := 0).
  - exists []. rewrite app_nil_r. simpl. auto 10.
  - intros k x [[[q' l'] tot'] s'] w1 Hk (evs & Htr & Hres & Hlen & Hdone & -> & -> & ->).
    rewrite length_range in Hk.
    apply post_bind. unfold getrow.
    destruct (rows q !! s') as [row|]; simpl.
    2:{ apply post_raise. simpl. exists evs. repeat split; auto. lia. }
    apply post_ret. simpl.
    apply post_bind. unfold post.
    pose proof (choose_silent row eps (action_space_n E) w1) as Hc.
    destruct (choose row eps (action_space_n E) w1) as [[a|e|] w2]; simpl in *.
    2,3: (exists evs; rewrite Hc; repeat split; auto; lia).
    apply post_bind. unfold post, env_step.
    destruct (step E (sim w2) a) as [[e|[[obs r] d]] st]; simpl.
    { exists evs. rewrite Hc. repeat split; auto. lia. }
    destruct d; simpl.
    + exists (evs ++ [Step a obs r true]).
      rewrite Hc, Htr, <- app_assoc, count_app, length_app, history_from_snoc,
        total_from_snoc, count_app by assumption.
      simpl. rewrite Hres, Hdone.
      assert (Hh : history_from tot evs = []).
      { apply length_zero_iff_nil. now rewrite length_history_from. }
      rewrite Hh. simpl. repeat split; auto; lia.
    + exists (evs ++ [Step a obs r false]).
      rewrite Hc, Htr, <- app_assoc, count_app, length_app, total_from_snoc, count_app.
      simpl. rewrite Hres, Hdone. repeat split; auto; lia.
  - intros [[[q' l'] tot'] s'] w1 (evs & Htr & Hres & Hlen & Hdone & -> & -> & ->).
    rewrite length_range in Hlen. simpl in Hlen.
    exists evs. repeat split; auto; try lia.
    assert (Hh : history_from tot evs = []).
    { apply length_zero_iff_nil. now rewrite length_history_from. }
    now rewrite Hh, app_nil_r.
Qed.
(** What the episodes do together, whatever the outcome: [iter_max]
    resets at most and [t_max] steps for each; when the loop returns,
    every episode was run, the Q-table is still all zero, and the reward
    list holds the accumulated reward of the episodes that ended with
    [done], and of no other. *)
Lemma locals_post (alpha gamma eps : Q) (iter_max t_max : nat) (w : World E) :
  post (q_learning_locals E choose alpha gamma eps iter_max t_max) w
    (fun o w' => exists evs,
       trace w' = trace w ++ evs /\ count is_reset evs <= iter_max /\
       count is_step evs <= iter_max * t_max /\
       match o with
       | Ok (q, l) =>
           q = np_zeros2 (observation_space_n E) (action_space_n E) /\
           l = history_from 0 evs /\ count is_reset evs = iter_max
       | _ => True
       end).
Proof.
  unfold q_learning_locals.
  apply (post_for_in
    (fun k '(q, l) w' => exists evs,
       trace w' = trace w ++ evs /\ count is_reset evs = k /\
       count is_step evs <= k * t_max /\
       q = np_zeros2 (observation_space_n E) (action_space_n E) /\
       l = history_from 0 evs)) with (k0 := 0).
  - exists []. rewrite app_nil_r. simpl. auto 10 with arith.
  - intros k x [q l] w1 Hk (evs & Hevs & Hres & Hsteps & -> & ->).
    rewrite length_range in Hk.
    apply post_bind. unfold post at 1, env_reset.
    destruct (reset E (sim w1)) as [obs st]; simpl.
    apply post_bind. eapply post_weaken; [| apply episode_post].
    intros o w3 (ep & Hep & Hr & Hlen & Ho). simpl in Hep.
    pose proof (count_le_length is_step ep) as Hle.
    assert (Hw3 : trace w3 = trace w ++ (evs ++ Reset obs :: ep)).
    { rewrite Hep, Hevs, <- !app_assoc. reflexivity. }
    assert (Hcr : count is_reset (evs ++ Reset obs :: ep) = S k).
    { rewrite count_app. simpl. lia. }
    assert (Hcs : count is_step (evs ++ Reset obs :: ep) <= S k * t_max).
    { rewrite count_app. simpl. lia. }
    destruct o as [[[[q' l'] tot'] s']|e|]; simpl.
    + destruct Ho as (-> & -> & _).
      apply post_bind.
      assert (Hfin : exists evs0,
                trace w3 = trace w ++ evs0 /\ count is_reset evs0 = S k /\
                count is_step evs0 <= S k * t_max /\
                np_zeros2 (observation_space_n E) (action_space_n E)
                  = np_zeros2 (observation_space_n E) (action_space_n E) /\
                history_from 0 evs ++ history_from 0 ep = history_from 0 evs0).
      { exists (evs ++ Reset obs :: ep). rewrite history_from_episode. auto. }
      destruct Hfin as (evs0 & H1 & H2 & H3 & H4 & H5).
      apply post_if; unfold post, print, ret, body_post, after; simpl;
        exists evs0; auto.
    + exists (evs ++ Reset obs :: ep). repeat split; auto; nia.
    + exists (evs ++ Reset obs :: ep). repeat split; auto; nia.
  - intros [q l] w1 (evs & Hevs & Hres & Hsteps & -> & ->).
    rewrite length_range in Hres, Hsteps. simpl in Hres, Hsteps.
    exists evs. repeat split; auto; lia.
Qed.

(** With a binding of [choose_action] that returns and an environment
    that answers, an episode started in range returns, in range. *)
Lemma episode_returns (eps : Q) (t_max : nat) (l : list Q) (tot : Q) (s : nat) (w : World E) :
  chooser_returns choose -> env_answers E ->
  s < observation_space_n E ->
  post (q_learning_episode E choose eps t_max
          (np_zeros2 (observation_space_n E) (action_space_n E), l, tot, s)) w
    (fun o w' => exists q' l' tot' s',
       o = Ok (q', l', tot', s') /\ s' < observation_space_n E).
Proof.
  intros Hret [_ Hstep] Hs. unfold q_learning_episode.
  apply (post_for_in
    (fun (_ : nat) '(q', _, _, s') (_ : World E) =>
       q' = np_zeros2 (observation_space_n E) (action_space_n E) /\
       s' < observation_space_n E)) with (k0 := 0).
  - auto.
  - intros k x [[[q' l'] tot'] s'] w1 _ [-> Hs'].
    apply post_bind. unfold getrow. simpl rows.
    rewrite lookup_replicate_2 by assumption.
    apply post_ret. simpl.
    apply post_bind. unfold post.
    destruct (Hret (replicate (action_space_n E) 0%Q) eps (action_space_n E) w1) as [a Ha].
    destruct (choose _ eps (action_space_n E) w1) as [o w2]. simpl in Ha. subst o. simpl.
    apply post_bind. unfold post, env_step.
    destruct (Hstep (sim w2) a) as (obs & r & d & st & -> & Hobs). simpl.
    destruct d; simpl; eauto 10.
  - intros [[[q' l'] tot'] s'] w1 [-> Hs']. eauto 10.
Qed.

Lemma locals_returns (alpha gamma eps : Q) (iter_max t_max : nat) (w : World E) :
  chooser_returns choose -> env_answers E ->
  exists q l, (q_learning_locals E choose alpha gamma eps iter_max t_max w).1 = Ok (q, l).
Proof.
  intros Hret Hans.
  enough (H : post (q_learning_locals E choose alpha gamma eps iter_max t_max) w
                (fun o _ => exists q l, o = Ok (q, l))) by exact H.
  unfold q_learning_locals.
  apply (post_for_in
    (fun (_ : nat) '(q, _) (_ : World E) =>
       q = np_zeros2 (observation_space_n E) (action_space_n E))) with (k0 := 0).
  - reflexivity.
  - intros k x [q l] w1 _ ->.
    apply post_bind. unfold post at 1, env_reset.
    pose proof (proj1 Hans (sim w1)) as Hobs.
    destruct (reset E (sim w1)) as [obs st]; simpl in *.
    apply post_bind. eapply post_weaken.
    2:{ apply post_and; [apply episode_post | apply episode_returns; eassumption]. }
    intros o w3 [(ep & _ & _ & _ & Ho) (q' & l' & tot' & s' & -> & _)]. simpl.
    destruct Ho as (-> & _).
    apply post_bind.
    apply post_if; unfold post, print, ret, body_post, after; simpl; reflexivity.
  - intros [q l] w1 _. eauto.
Qed.
End QLearningFacts.

(** ** The loop of evaluate_policy *)

Section EvaluatePolicyFacts.
Context (E : Env) (policy : loc) (render : bool).

(** What one turn of the loop does, case by case. *)
Lemma evaluate_policy_body_cases (obs : nat) (tot : Q) (w : World E) :
  let r := evaluate_policy_body E policy render (obs, tot) w in
  heap r.2 = heap w /\
  match r.1 with
  | Ok (c, (obs', tot')) =>
      exists pol x reward done st',
        heap w !! policy = Some pol /\ pol !! obs = Some x /\
        step E (sim w) (PyInt (py_int x)) = (inr (obs', reward, done), st') /\
        sim r.2 = st' /\
        trace r.2 = trace w ++ [Step (PyInt (py_int x)) obs' reward done] /\
        tot' = (tot + reward)%Q /\
        c = (if done then Break else Next) /\
        (render = false -> stdout r.2 = stdout w)
  | Raise _ =>
      match heap w !! policy with
      | None => True
      | Some pol =>
          match pol !! obs with
          | None => True
          | Some x => exists e st', step E (sim w) (PyInt (py_int x)) = (inl e, st')
          end
      end
  | OutOfFuel => False
  end.
Proof.
  unfold evaluate_policy_body, bind, getitem, env_step.
  destruct render; simpl.
  all: destruct (heap w !! policy) as [pol|] eqn:Hpol; simpl; auto.
  all: destruct (pol !! obs) as [x|] eqn:Hx; simpl; auto.
  all: destruct (step E (sim w) (PyInt (py_int x))) as [[e|[[obs' r] d]] st] eqn:Hstep;
    simpl; eauto.
  all: destruct d; simpl; split; auto; exists pol, x, r.
  1,3: exists true, st; repeat split; auto; discriminate.
  all: exists false, st; repeat split; auto; discriminate.
Qed.

(** Along a rollout, fuel for its steps is enough for the loop to return
    with the rewards added up. *)
Lemma while_true_follows_rollout (pol : list Q) (steps : list interaction) :
  forall (fuel obs : nat) (tot : Q) (w : World E) (st_end : St E),
    heap w !! policy = Some pol ->
    rollout E pol (sim w) obs steps st_end ->
    length steps <= fuel ->
    exists obs' w',
      while_true fuel (evaluate_policy_body E policy render) (obs, tot) w
        = (Ok (obs', total_from tot steps), w') /\
      trace w' = trace w ++ steps /\ sim w' = st_end /\ heap w' = heap w.
Proof.
  induction steps as [|[o|a obs' reward done] rest IH];
    intros fuel obs tot w st_end Hpol Hroll Hfuel; simpl in Hroll; try contradiction.
  destruct Hroll as [(x & Hx & ->) (st' & Hstep & Hrest)].
  destruct fuel as [|fuel]; [simpl in Hfuel; lia |].
  simpl in Hfuel. rewrite while_true_S.
  pose proof (evaluate_policy_body_cases obs tot w) as [Hheap Hbody].
  destruct (evaluate_policy_body E policy render (obs, tot) w) as [[[c [obs1 tot1]]|e|] w1];
    simpl in Hheap, Hbody.
  - destruct Hbody as (pol' & x' & r' & d' & st1 & Hpol' & Hx' & Hstep' & Hsim & Htr & -> & -> & _).
    rewrite Hpol in Hpol'. injection Hpol' as <-.
    rewrite Hx in Hx'. injection Hx' as <-.
    rewrite Hstep in Hstep'. injection Hstep' as <- <- <- <-.
    destruct done.
    + destruct Hrest as [-> ->]. exists obs', w1. simpl. auto.
    + assert (Hpol1 : heap w1 !! policy = Some pol) by now rewrite Hheap.
      rewrite <- Hsim in Hrest.
      destruct (IH fuel obs' (tot + reward)%Q w1 st_end Hpol1 Hrest ltac:(lia))
        as (obs2 & w2 & Hrun & Htr' & Hsim' & Hheap').
      exists obs2, w2. simpl. repeat split; auto.
      * rewrite Htr', Htr, <- app_assoc. reflexivity.
      * now rewrite Hheap'.
  - rewrite Hpol, Hx in Hbody. destruct Hbody as (e' & st1 & Hbody).
    rewrite Hstep in Hbody. discriminate.
  - contradiction.
Qed.

(** A loop that returned followed a rollout. *)
Lemma while_true_returned (fuel : nat) :
  forall (obs : nat) (tot : Q) (w : World E) obs' tot' w',
    while_true fuel (evaluate_policy_body E policy render) (obs, tot) w = (Ok (obs', tot'), w') ->
    exists pol steps,
      heap w !! policy = Some pol /\ rollout E pol (sim w) obs steps (sim w') /\
      tot' = total_from tot steps /\ trace w' = trace w ++ steps /\
      heap w' = heap w /\ length steps <= fuel.
Proof.
  induction fuel as [|fuel IH]; intros obs tot w obs' tot' w' Hrun; [discriminate |].
  rewrite while_true_S in Hrun.
  pose proof (evaluate_policy_body_cases obs tot w) as [Hheap Hbody].
  destruct (evaluate_policy_body E policy render (obs, tot) w) as [[[c [obs1 tot1]]|e|] w1];
    simpl in Hheap, Hbody; try discriminate.
  destruct Hbody as (pol & x & r & d & st1 & Hpol & Hx & Hstep & Hsim & Htr & -> & -> & _).
  destruct d.
  - injection Hrun as <- <- <-.
    exists pol, [Step (PyInt (py_int x)) obs1 r true]. simpl.
    repeat split; eauto; lia.
  - apply IH in Hrun as (pol' & steps & Hpol' & Hroll & Htot & Htr' & Hheap' & Hlen).
    rewrite Hheap, Hpol in Hpol'. injection Hpol' as <-.
    exists pol, (Step (PyInt (py_int x)) obs1 r false :: steps). simpl.
    repeat split; eauto; try lia.
    + exists (sim w1). split; [congruence | exact Hroll].
    + rewrite Htr', Htr, <- app_assoc. reflexivity.
    + congruence.
Qed.

(** A rollout ends with a step that reports [done]. *)
Lemma rollout_reports_done (pol : list Q) (steps : list interaction) :
  forall (st : St E) (obs : nat) (st_end : St E),
    rollout E pol st obs steps st_end -> ~ never_done E.
Proof.
  induction steps as [|[o|a obs' reward done] rest IH]; intros st obs st_end Hroll Hnever;
    simpl in Hroll; try contradiction.
  destruct Hroll as [_ (st' & Hstep & Hrest)].
  pose proof (Hnever _ _ _ _ _ _ Hstep) as ->.
  eapply IH; eauto.
Qed.
End EvaluatePolicyFacts.

(** ** np.argmax: the first occurrence of the maximum *)

Lemma Qltb_false (x y : Q) : Qltb x y = false -> (y <= x)%Q.
Proof.
  unfold Qltb. intros H. apply Qle_bool_iff.
  destruct (Qle_bool y x); [reflexivity | discriminate].
Qed.

Lemma Qltb_true (x y : Q) : Qltb x y = true -> (x < y)%Q.
Proof.
  unfold Qltb. intros H. apply Qnot_le_lt. intros Hle.
  apply Qle_bool_iff in Hle. rewrite Hle in H. discriminate.
Qed.

(** [argmax_from] keeps the running best unless a later entry is strictly
    larger: the result is the first index holding the maximum. *)
Lemma argmax_from_first (l : list Q) :
  forall (best_i : nat) (best : Q) (i : nat),
    best_i < i ->
    let r := argmax_from best_i best i l in
    (r = best_i /\ forall j y, l !! j = Some y -> (y <= best)%Q) \/
    (exists k x, r = i + k /\ l !! k = Some x /\ (best < x)%Q /\
       (forall j y, l !! j = Some y -> (y <= x)%Q) /\
       (forall j y, j < k -> l !! j = Some y -> (y < x)%Q)).
Proof.
  induction l as [|a l IH]; intros best_i best i Hlt; simpl.
  - left. split; [reflexivity | intros j y Hj; discriminate].
  - destruct (Qltb best a) eqn:Hcmp.
    + apply Qltb_true in Hcmp.
      destruct (IH i a (S i) ltac:(lia)) as [[Hr Hmax] | (k & x & Hr & Hk & Hax & Hmax & Hfirst)].
      * right. exists 0, a. rewrite Hr.
        split; [lia |]. split; [reflexivity |]. split; [assumption |]. split.
        -- intros [|j] y Hj; simpl in Hj; [injection Hj as <-; apply Qle_refl | eauto].
        -- intros j y Hj. lia.
      * right. exists (S k), x. rewrite Hr.
        split; [lia |]. split; [assumption |].
        split; [eapply Qlt_trans; eauto |]. split.
        -- intros [|j] y Hj; simpl in Hj; [injection Hj as <-; now apply Qlt_le_weak | eauto].
        -- intros [|j] y Hjk Hj; simpl in Hj; [now injection Hj as <- |].
           apply (Hfirst j); [lia | assumption].
    + apply Qltb_false in Hcmp.
      destruct (IH best_i best (S i) ltac:(lia)) as [[Hr Hmax] | (k & x & Hr & Hk & Hax & Hmax & Hfirst)].
      * left. split; [assumption |].
        intros [|j] y Hj; simpl in Hj; [now injection Hj as <- | eauto].
      * right. exists (S k), x. rewrite Hr.
        split; [lia |]. split; [assumption |]. split; [assumption |]. split.
        -- intros [|j] y Hj; simpl in Hj; [| eauto].
           injection Hj as <-. eapply Qle_trans; [exact Hcmp | now apply Qlt_le_weak].
        -- intros [|j] y Hjk Hj; simpl in Hj.
           ++ injection Hj as <-. eapply Qle_lt_trans; eauto.
           ++ apply (Hfirst j); [lia | assumption].
Qed.

(** [np.argmax] of a row: an index of the row, whose entry no entry
    exceeds, and which every earlier entry stays strictly below: among
    equal maximal entries the lowest index is taken. *)
Lemma argmax_lowest_index (l : list Q) (x : Q) :
  l !! argmax l = Some x ->
  (forall j y, l !! j = Some y -> (y <= x)%Q) /\
  (forall j y, j < argmax l -> l !! j = Some y -> (y < x)%Q).
Proof.
  destruct l as [|a l]; [discriminate |]. unfold argmax.
  destruct (argmax_from_first l 0 a 1 ltac:(lia))
    as [[Hr Hmax] | (k & x' & Hr & Hk & Hax & Hmax & Hfirst)]; rewrite Hr.
  - simpl. intros [= <-]. split.
    + intros [|j] y Hj; simpl in Hj; [injection Hj as <-; apply Qle_refl | eauto].
    + intros j y Hj. lia.
  - simpl. rewrite Hk. intros [= <-]. split.
    + intros [|j] y Hj; simpl in Hj; [injection Hj as <-; now apply Qlt_le_weak | eauto].
    + intros [|j] y Hjk Hj; simpl in Hj.
      * now injection Hj as <-.
      * apply (Hfirst j); [lia | assumption].
Qed.

Lemma argmax_in_range (l : list Q) : l <> [] -> argmax l < length l.
Proof.
  destruct l as [|a l]; [congruence | intros _]. unfold argmax.
  destruct (argmax_from_first l 0 a 1 ltac:(lia))
    as [[Hr _] | (k & x' & Hr & Hk & _)]; rewrite Hr; simpl; [lia |].
  apply lookup_lt_Some in Hk. lia.
Qed.

(** ** value_iteration *)

(** C9.  For every environment, every discount factor and every state of
    the interpreter, [value_iteration] breaks out of its first sweep
    (delta is 0 there, below 1e-30), prints that it converged at iteration
    1 and returns a new array of [observation_space_n] zeros; it does not
    touch the environment. *)
Theorem value_iteration_converges_at_once (E : Env) (gamma : Q) (w : World E) :
  value_iteration E gamma w =
    (Ok (length (heap w)),
     mkWorld (sim w)
             (heap w ++ [replicate (observation_space_n E) 0%Q])
             (stdout w ++ [Out_converged 1])
             (trace w)).
Proof.
  destruct max_iterations_pos as [n Hn].
  unfold value_iteration. rewrite Hn, range_S.
  reflexivity.
Qed.

(** C1.  On the chain of two states with discount 1 the sweeps the
    exercise asks for reach the values 1 and 0 and report convergence at
    iteration 2 (the first sweep has delta 1); [value_iteration] makes no
    backup, returns the zeros it started from and reports iteration 1. *)
Theorem value_iteration_makes_no_backup :
  value_iteration chain_env 1 (fresh chain_env 0)
    = (Ok 0, mkWorld (0 : St chain_env) [[0%Q; 0%Q]] [Out_converged 1] []) /\
  Spec.sweep chain_env 0 1 [0%Q; 0%Q] = ([1%Q; 0%Q], 1%Q) /\
  Spec.value_iteration chain_env 0 1 eps max_iterations = ([1%Q; 0%Q], Some 2).
Proof.
  split; [| split].
  - destruct max_iterations_pos as [n Hn].
    unfold value_iteration. rewrite Hn, range_S. reflexivity.
  - vm_compute. reflexivity.
  - vm_compute. reflexivity.
Qed.

(** ** choose_action *)

(** C10.  With the globals of the notebook, whatever they are bound to,
    [choose_action] raises [NameError] for the name [action] on every
    Q-row, every epsilon and every action count, and changes nothing. *)
Theorem choose_action_raises_NameError
    (E : Env) (binding : string -> pyobj) (q : list Q) (eps : Q) (num_actions : nat)
    (w : World E) :
  choose_action E (module_globals binding) q eps num_actions w
    = (Raise (NameError "action"), w).
Proof.
  unfold choose_action, load_global, bind.
  now rewrite module_globals_action.
Qed.

(** C6.  On a row with two equal entries and epsilon 0 [choose_action]
    selects no action at all: it raises [NameError]; the [np.argmax] that
    [q_learning] applies to the rows of its table takes the lower index
    there. *)
Theorem choose_action_selects_nothing_on_a_tie :
  choose_action chain_env (module_globals some_binding) [1%Q; 1%Q] 0 2 (fresh chain_env 0)
    = (Raise (NameError "action"), fresh chain_env 0) /\
  argmax [1%Q; 1%Q] = 0.
Proof.
  split; [| reflexivity].
  unfold choose_action, load_global, bind.
  now rewrite module_globals_action.
Qed.

(** ** q_learning *)

(** Neither binding of [choose_action] used below calls the environment. *)
Lemma choose_action_silent (E : Env) (G : gmap string pyobj) :
  chooser_silent (choose_action E G).
Proof.
  intros q eps n w. unfold choose_action, load_global, bind.
  destruct (G !! "action"); reflexivity.
Qed.

Lemma choose_greedy_silent (E : Env) : chooser_silent (@Spec.choose_greedy E).
Proof. intros q eps n w. reflexivity. Qed.

Lemma choose_greedy_returns (E : Env) : chooser_returns (@Spec.choose_greedy E).
Proof. intros q eps n w. eexists. reflexivity. Qed.

(** For the bindings of [choose_action] considered here, which read the
    row they are given and do not assign into it: the table [q_learning]
    takes the argmax of is the table of zeros it started with. *)
Lemma q_table_stays_zero (E : Env) (choose : list Q -> Q -> nat -> Py E pyobj)
    (alpha gamma eps : Q) (iter_max t_max : nat) (w : World E) q l w' :
  chooser_silent choose ->
  q_learning_locals E choose alpha gamma eps iter_max t_max w = (Ok (q, l), w') ->
  q = np_zeros2 (observation_space_n E) (action_space_n E).
Proof.
  intros Hsilent Hrun.
  pose proof (locals_post E choose Hsilent alpha gamma eps iter_max t_max w) as H.
  unfold post in H. rewrite Hrun in H. simpl in H.
  destruct H as (evs & _ & _ & _ & Hq & _). exact Hq.
Qed.

Lemma argmax_zeros (n : nat) : argmax (replicate n 0%Q) = 0.
Proof.
  destruct n as [|n]; [reflexivity |]. simpl.
  generalize 1. induction n as [|n IH]; intros i; simpl; [reflexivity | apply IH].
Qed.

(** So, for such a binding, the policy [q_learning] returns takes action
    0 in every state. *)
Lemma q_learning_policy_all_zero (E : Env) (choose : list Q -> Q -> nat -> Py E pyobj)
    (alpha gamma eps : Q) (iter_max t_max : nat) (w : World E) p w' :
  chooser_silent choose ->
  q_learning_with E choose alpha gamma eps iter_max t_max w = (Ok p, w') ->
  heap w' !! p = Some (replicate (observation_space_n E) 0%Q).
Proof.
  intros Hsilent. unfold q_learning_with, bind.
  destruct (q_learning_locals E choose alpha gamma eps iter_max t_max w)
    as [[[q l]|e|] w1] eqn:Hrun; try discriminate.
  apply q_table_stays_zero in Hrun as ->; [| assumption].
  unfold np_argmax_axis1, np_zeros2. simpl.
  destruct (action_space_n E =? 0); [discriminate |].
  unfold alloc. intros [= <- <-]. simpl.
  rewrite list_lookup_middle by reflexivity.
  f_equal. change (map ?f ?l) with (f <$> l).
  rewrite fmap_replicate, argmax_zeros. reflexivity.
Qed.

(** C2.  One episode of one step on the chain, learning rate 1/2: as the
    notebook stands the call raises [NameError] at its first step; with
    the greedy choice in place of [choose_action] the step from state 0
    by action 0 earns reward 1 and the table is still all zero after it,
    where the update the exercise asks for puts 1/2 at (0, 0). *)
Theorem q_learning_makes_no_update :
  q_learning chain_env (module_globals some_binding) (1 # 2) (96 # 100) (2 # 100) 1 1
      (fresh chain_env 0)
    = (Raise (NameError "action"), mkWorld (0 : St chain_env) [] [] [Reset 0]) /\
  q_learning_locals chain_env Spec.choose_greedy (1 # 2) (96 # 100) (2 # 100) 1 1
      (fresh chain_env 0)
    = (Ok (np_zeros2 2 2, [1%Q]),
       mkWorld (1 : St chain_env) [] [Out_progress 1 [1%Q]]
               [Reset 0; Step (PyInt 0) 1 1 true]) /\
  (Spec.cell (Spec.q_update (1 # 2) (96 # 100) (np_zeros2 2 2) 0 0 1 1 true) 0 0 == 1 # 2)%Q.
Proof.
  split; [| split]; vm_compute; reflexivity.
Qed.

(** C3 as stated fails.  Two episodes of at most three steps in
    [flaky_env]: the first ends with [done], the second is cut after three
    steps, and the reward list holds one entry, not two.  As the notebook
    stands, one episode of no step is run on the chain, the reward list
    stays empty, and the call returns one array (the policy of two
    zeros), not a pair. *)
Lemma q_learning_drops_truncated_episodes :
  q_learning_locals flaky_env Spec.choose_greedy (1 # 2) (96 # 100) (2 # 100) 2 3
      (fresh flaky_env 0)
    = (Ok (np_zeros2 1 1, [1%Q]),
       mkWorld (2 : St flaky_env) [] [Out_progress 1 [1%Q]]
               [Reset 0; Step (PyInt 0) 0 1 true;
                Reset 0; Step (PyInt 0) 0 1 false; Step (PyInt 0) 0 1 false;
                Step (PyInt 0) 0 1 false]) /\
  q_learning_locals chain_env (choose_action chain_env (module_globals some_binding))
      (1 # 2) (96 # 100) (2 # 100) 1 0 (fresh chain_env 0)
    = (Ok (np_zeros2 2 2, []),
       mkWorld (0 : St chain_env) [] [Out_progress 1 []] [Reset 0]) /\
  q_learning chain_env (module_globals some_binding) (1 # 2) (96 # 100) (2 # 100) 1 0
      (fresh chain_env 0)
    = (Ok 0, mkWorld (0 : St chain_env) [[0%Q; 0%Q]] [Out_progress 1 []] [Reset 0]).
Proof.
  split; [| split]; vm_compute; reflexivity.
Qed.

(** C3, amended.  Whatever [choose_action] is bound to (as long as it
    does not call the environment): when the episodes return, [iter_max]
    episodes were run, the reward list holds the accumulated reward of
    exactly those episodes that ended with a step reporting [done], in
    order, an episode cut at [t_max] adding nothing, and [q_learning]
    returns the argmax of the rows of the Q-table alone.  The episodes do
    return when [choose_action] returns an action and the environment
    answers every step. *)
Theorem q_learning_reward_history (E : Env) (choose : list Q -> Q -> nat -> Py E pyobj)
    (Hsilent : chooser_silent choose)
    (alpha gamma eps : Q) (iter_max t_max : nat) (w : World E) :
  (forall q l w',
     q_learning_locals E choose alpha gamma eps iter_max t_max w = (Ok (q, l), w') ->
     exists evs,
       trace w' = trace w ++ evs /\ count is_reset evs = iter_max /\
       l = history_from 0 evs /\ length l = count is_done evs /\
       q_learning_with E choose alpha gamma eps iter_max t_max w = np_argmax_axis1 q w') /\
  (chooser_returns choose -> env_answers E ->
   exists q l w',
     q_learning_locals E choose alpha gamma eps iter_max t_max w = (Ok (q, l), w')).
Proof.
  split.
  - intros q l w' Hrun.
    pose proof (locals_post E choose Hsilent alpha gamma eps iter_max t_max w) as H.
    unfold post in H. rewrite Hrun in H. simpl in H.
    destruct H as (evs & Htr & _ & _ & _ & Hl & Hres).
    exists evs. repeat split; auto.
    + rewrite Hl. apply length_history_from.
    + unfold q_learning_with, bind. now rewrite Hrun.
  - intros Hret Hans.
    destruct (locals_returns E choose Hsilent alpha gamma eps iter_max t_max w Hret Hans)
      as (q & l & Hrun).
    destruct (q_learning_locals E choose alpha gamma eps iter_max t_max w) as [o w'].
    simpl in Hrun. subst o. eauto.
Qed.

Lemma flaky_env_answers : env_answers flaky_env.
Proof.
  split.
  - intros st. simpl. lia.
  - intros st a. exists 0, 1%Q, (Nat.odd st), st. simpl. split; [reflexivity | lia].
Qed.

Lemma q_learning_reward_history_witness :
  exists q l w',
    q_learning_locals flaky_env Spec.choose_greedy (1 # 2) (96 # 100) (2 # 100) 2 3
      (fresh flaky_env 0) = (Ok (q, l), w') /\
    exists evs,
      trace w' = trace (fresh flaky_env 0) ++ evs /\ count is_reset evs = 2 /\
      l = history_from 0 evs /\ length l = count is_done evs.
Proof.
  destruct (q_learning_reward_history flaky_env Spec.choose_greedy
              (choose_greedy_silent flaky_env) (1 # 2) (96 # 100) (2 # 100) 2 3
              (fresh flaky_env 0)) as [Hsound Hreturns].
  destruct (Hreturns (choose_greedy_returns flaky_env) flaky_env_answers)
    as (q & l & w' & Hrun).
  exists q, l, w'. split; [exact Hrun |].
  destruct (Hsound q l w' Hrun) as (evs & H1 & H2 & H3 & H4 & _).
  exists evs. auto.
Defined.

(** ** Step caps *)

(** In [loop_env], [evaluate_policy] is still running when its fuel is
    gone, having taken as many steps as it had fuel. *)
Lemma loop_env_keeps_going (fuel : nat) :
  forall (tot : Q) (w : World loop_env),
    heap w !! 0 = Some [0%Q] ->
    exists w',
      while_true fuel (evaluate_policy_body loop_env 0 false) (0, tot) w = (OutOfFuel, w') /\
      count is_step (trace w') = count is_step (trace w) + fuel.
Proof.
  induction fuel as [|fuel IH]; intros tot w Hpol.
  - exists w. split; [reflexivity | lia].
  - rewrite while_true_S.
    destruct w as [st [|a h] out evs]; simpl in Hpol; [discriminate |].
    injection Hpol as ->.
    unfold evaluate_policy_body, bind, getitem, env_step. simpl.
    destruct (IH (tot + 0)%Q
                (mkWorld (tt : St loop_env) ([0%Q] :: h) out
                         (evs ++ [Step (PyInt (py_int 0)) 0 0 false])) eq_refl)
      as (w' & Hrun & Hcount).
    exists w'. split; [exact Hrun |].
    rewrite Hcount. simpl. rewrite count_app. simpl. lia.
Qed.

(** C4 as stated fails for [evaluate_policy]: in an environment that
    never reports [done] no amount of fuel lets it return, and the number
    of steps it has taken grows with the fuel without bound. *)
Lemma evaluate_policy_has_no_step_cap :
  (forall fuel, (evaluate_policy loop_env fuel 0 false (with_policy_0 loop_env tt)).1
                  = OutOfFuel) /\
  (forall fuel, count is_step
                  (trace (evaluate_policy loop_env fuel 0 false (with_policy_0 loop_env tt)).2)
                  = fuel).
Proof.
  split; intros fuel.
  all: unfold evaluate_policy, bind, env_reset; simpl.
  all: destruct (loop_env_keeps_going fuel 0%Q
                   (mkWorld (tt : St loop_env) [[0%Q]] [] [Reset 0]) eq_refl)
         as (w' & Hrun & Hcount).
  all: rewrite Hrun; simpl.
  - reflexivity.
  - rewrite Hcount. reflexivity.
Qed.

(** C4, amended.  [q_learning] is bounded by its two [for] loops alone:
    whatever the environment and the outcome, an episode takes at most
    [t_max] steps and no reset (exactly [t_max] when it returns without a
    step that reported [done]), and a call makes at most [iter_max] resets
    and [iter_max * t_max] steps.  [evaluate_policy] has no cap: it stops
    only when the environment reports [done], and in an environment that
    never does it does not return, whatever the fuel. *)
Theorem step_caps (E : Env) (choose : list Q -> Q -> nat -> Py E pyobj)
    (Hsilent : chooser_silent choose)
    (alpha gamma eps : Q) (iter_max t_max : nat) (l : locals)
    (fuel : nat) (policy : loc) (render : bool) (w : World E) :
  (exists evs,
     trace (q_learning_episode E choose eps t_max l w).2 = trace w ++ evs /\
     count is_reset evs = 0 /\ length evs <= t_max /\
     (forall l', (q_learning_episode E choose eps t_max l w).1 = Ok l' ->
                 count is_done evs = 0 -> length evs = t_max)) /\
  (exists evs,
     trace (q_learning_with E choose alpha gamma eps iter_max t_max w).2 = trace w ++ evs /\
     count is_reset evs <= iter_max /\ count is_step evs <= iter_max * t_max) /\
  (never_done E ->
   forall total w', evaluate_policy E fuel policy render w <> (Ok total, w')).
Proof.
  split; [| split].
  - destruct l as [[[q rl] tot] s].
    pose proof (episode_post E choose Hsilent eps t_max q rl tot s w) as H.
    unfold post in H. destruct H as (evs & Htr & Hres & Hlen & Ho).
    exists evs. repeat split; auto.
    intros [[[q' rl'] tot'] s'] Hl' Hnone. rewrite Hl' in Ho.
    destruct Ho as (_ & _ & _ & _ & Hall). auto.
  - pose proof (locals_post E choose Hsilent alpha gamma eps iter_max t_max w) as H.
    unfold post in H. destruct H as (evs & Htr & Hres & Hsteps & _).
    exists evs. split; [| auto].
    unfold q_learning_with, bind.
    destruct (q_learning_locals E choose alpha gamma eps iter_max t_max w)
      as [[[q rl]|e|] w1]; simpl in *; auto.
    unfold np_argmax_axis1. destruct (ncols q =? 0); simpl; auto.
  - intros Hnever total w' Hrun.
    unfold evaluate_policy, bind in Hrun.
    destruct (env_reset w) as [[obs|e|] w1]; try discriminate.
    destruct (while_true fuel (evaluate_policy_body E policy render) (obs, 0%Q) w1)
      as [[[obs' tot']|e|] w2] eqn:Hloop; try discriminate.
    apply while_true_returned in Hloop as (pol & steps & _ & Hroll & _).
    exact (rollout_reports_done E pol steps _ _ _ Hroll Hnever).
Qed.

Lemma loop_env_never_done : never_done loop_env.
Proof. intros st a obs reward done st' H. simpl in H. congruence. Qed.

Lemma step_caps_witness :
  (exists evs,
     trace (q_learning_with loop_env Spec.choose_greedy (1 # 2) (96 # 100) (2 # 100) 2 3
              (fresh loop_env tt)).2 = trace (fresh loop_env tt) ++ evs /\
     count is_reset evs <= 2 /\ count is_step evs <= 2 * 3) /\
  (forall total w',
     evaluate_policy loop_env 7 0 false (with_policy_0 loop_env tt) <> (Ok total, w')).
Proof.
  split.
  - exact (proj1 (proj2 (step_caps loop_env Spec.choose_greedy (choose_greedy_silent loop_env)
                           (1 # 2) (96 # 100) (2 # 100) 2 3 (np_zeros2 1 1, [], 0%Q, 0)
                           7 0 false (fresh loop_env tt)))).
  - exact (proj2 (proj2 (step_caps loop_env Spec.choose_greedy (choose_greedy_silent loop_env)
                           (1 # 2) (96 # 100) (2 # 100) 2 3 (np_zeros2 1 1, [], 0%Q, 0)
                           7 0 false (with_policy_0 loop_env tt))) loop_env_never_done).
Defined.

(** ** evaluate_policy *)

(** C5 as stated fails.  In [alternating_env] a call of [evaluate_policy]
    runs one episode (one reset, one step) and returns its total reward 1;
    the mean over two episodes, as the notebook's cells compute it from two
    calls, is 1/2. *)
Lemma evaluate_policy_is_no_mean :
  evaluate_policy alternating_env 5 0 false (with_policy_0 alternating_env 0)
    = (Ok 1%Q,
       mkWorld (1 : St alternating_env) [[0%Q]] [] [Reset 0; Step (PyInt 0) 0 1 true]) /\
  policy_average_score alternating_env 5 0 2 (with_policy_0 alternating_env 0)
    = (Ok (1 # 2)%Q,
       mkWorld (2 : St alternating_env) [[0%Q]] []
               [Reset 0; Step (PyInt 0) 0 1 true; Reset 0; Step (PyInt 0) 0 0 true]) /\
  ~ (1 == 1 # 2)%Q.
Proof.
  split; [| split]; [vm_compute; reflexivity .. |].
  intros H. discriminate H.
Qed.

(** C5, amended.  A call of [evaluate_policy] runs one episode: it resets
    the environment once and takes [int(policy[obs])] at each observation;
    when the environment reports [done] after the steps [steps], any fuel
    of at least that many turns lets the call return, and what it returns
    is the sum of the rewards of these steps (the total of the episode, no
    mean); the arrays are left as they were. *)
Theorem evaluate_policy_returns_episode_total (E : Env)
    (fuel : nat) (policy : loc) (render : bool) (w : World E)
    (pol : list Q) (obs0 : nat) (st1 : St E) (steps : list interaction) (st_end : St E) :
  heap w !! policy = Some pol ->
  reset E (sim w) = (obs0, st1) ->
  rollout E pol st1 obs0 steps st_end ->
  length steps <= fuel ->
  exists w',
    evaluate_policy E fuel policy render w = (Ok (total_from 0 steps), w') /\
    trace w' = trace w ++ Reset obs0 :: steps /\
    sim w' = st_end /\ heap w' = heap w.
Proof.
  intros Hpol Hreset Hroll Hfuel.
  unfold evaluate_policy, bind at 1, env_reset. rewrite Hreset.
  destruct (while_true_follows_rollout E policy render pol steps fuel obs0 0%Q
              (mkWorld st1 (heap w) (stdout w) (trace w ++ [Reset obs0])) st_end
              Hpol Hroll Hfuel) as (obs' & w' & Hrun & Htr & Hsim & Hheap).
  exists w'. unfold bind. rewrite Hrun. simpl in *.
  repeat split; auto.
  rewrite Htr, <- app_assoc. reflexivity.
Qed.

Lemma evaluate_policy_returns_episode_total_witness :
  exists w',
    evaluate_policy alternating_env 3 0 false (with_policy_0 alternating_env 0)
      = (Ok (total_from 0 [Step (PyInt 0) 0 1 true]), w') /\
    trace w' = trace (with_policy_0 alternating_env 0) ++ Reset 0 :: [Step (PyInt 0) 0 1 true] /\
    sim w' = (1 : St alternating_env) /\
    heap w' = heap (with_policy_0 alternating_env 0).
Proof.
  apply (evaluate_policy_returns_episode_total alternating_env 3 0 false
           (with_policy_0 alternating_env 0) [0%Q] 0 (1 : St alternating_env)
           [Step (PyInt 0) 0 1 true] (1 : St alternating_env)).
  - reflexivity.
  - reflexivity.
  - simpl. split.
    + exists 0%Q. split; reflexivity.
    + exists 1. split; [reflexivity | split; reflexivity].
  - simpl. lia.
Defined.

(** Conversely, a call that returned ran one episode along a rollout. *)
Lemma evaluate_policy_returned (E : Env) (fuel : nat) (policy : loc) (render : bool)
    (w : World E) (total : Q) (w' : World E) :
  evaluate_policy E fuel policy render w = (Ok total, w') ->
  exists pol steps,
    heap w !! policy = Some pol /\
    rollout E pol (reset E (sim w)).2 (reset E (sim w)).1 steps (sim w') /\
    total = total_from 0 steps /\
    trace w' = trace w ++ Reset (reset E (sim w)).1 :: steps /\
    length steps <= fuel.
Proof.
  unfold evaluate_policy, bind at 1, env_reset.
  destruct (reset E (sim w)) as [obs0 st1]. unfold bind.
  destruct (while_true fuel _ _ _) as [[[obs' tot']|e|] w2] eqn:Hloop; try discriminate.
  intros [= <- <-].
  apply while_true_returned in Hloop as (pol & steps & Hpol & Hroll & Htot & Htr & _ & Hlen).
  simpl in *. exists pol, steps. repeat split; auto.
  rewrite Htr, <- app_assoc. reflexivity.
Qed.

(** ** extract_policy *)

(** C8.  No call of [extract_policy] yields a policy.  The function as it
    stands is refused by Python's compiler: whatever the environment, the
    value table, the discount and the state of the interpreter, an attempt
    to run it ends with [IndentationError], and the interpreter, the value
    table and the environment are as they were.  The extraction the
    exercise asks for gives a policy: on the chain of section 8, with the
    converged values 1 and 0 and discount 1, action 0 in both states (in
    state 0 both actions are worth 1 and the lower index is taken). *)
Theorem extract_policy_yields_no_policy :
  (forall (E : Env) (v : loc) (gamma : Q) (w : World E),
     extract_policy E v gamma w = (Raise IndentationError, w)) /\
  Spec.extract_policy chain_env 0 1 [1%Q; 0%Q] = [0; 0].
Proof.
  split.
  - intros E v gamma w. reflexivity.
  - vm_compute. reflexivity.
Qed.

(** ** Configuration *)

(** C7 as stated fails.  Nothing is rejected: [value_iteration] returns
    with discount 2, with discount -1 and for an environment without
    states; [q_learning] runs its episode with discount 2 and epsilon 5;
    without states and actions it fails at its last line only, with the
    [ValueError] of [np.argmax]. *)
Lemma invalid_configuration_is_accepted :
  value_iteration chain_env 2 (fresh chain_env 0)
    = (Ok 0, mkWorld (0 : St chain_env) [[0%Q; 0%Q]] [Out_converged 1] []) /\
  value_iteration chain_env (-1) (fresh chain_env 0)
    = (Ok 0, mkWorld (0 : St chain_env) [[0%Q; 0%Q]] [Out_converged 1] []) /\
  value_iteration empty_env 1 (fresh empty_env tt)
    = (Ok 0, mkWorld (tt : St empty_env) [[]] [Out_converged 1] []) /\
  q_learning chain_env (module_globals some_binding) (1 # 2) 2 5 1 0 (fresh chain_env 0)
    = (Ok 0, mkWorld (0 : St chain_env) [[0%Q; 0%Q]] [Out_progress 1 []] [Reset 0]) /\
  q_learning empty_env (module_globals some_binding) (1 # 2) (96 # 100) (2 # 100) 0 0
      (fresh empty_env tt)
    = (Raise ValueError, fresh empty_env tt).
Proof.
  assert (Hvi : forall (E : Env) gamma w,
             value_iteration E gamma w =
               (Ok (length (heap w)),
                mkWorld (sim w) (heap w ++ [replicate (observation_space_n E) 0%Q])
                        (stdout w ++ [Out_converged 1]) (trace w))).
  { intros E gamma w. destruct max_iterations_pos as [n Hn].
    unfold value_iteration. rewrite Hn, range_S. reflexivity. }
  repeat split; try apply Hvi; vm_compute; reflexivity.
Qed.

(** Episodes without a step: with [iter_max = 0] or [t_max = 0] the
    loops of [q_learning] return whatever [choose_action] is bound to,
    after [iter_max] resets and no step, the table and the reward list as
    they were made. *)
Lemma locals_without_step (E : Env) (choose : list Q -> Q -> nat -> Py E pyobj)
    (alpha gamma eps : Q) (iter_max t_max : nat) (w : World E) :
  iter_max = 0 \/ t_max = 0 ->
  exists w' evs,
    q_learning_locals E choose alpha gamma eps iter_max t_max w
      = (Ok (np_zeros2 (observation_space_n E) (action_space_n E), []), w') /\
    trace w' = trace w ++ evs /\ count is_reset evs = iter_max /\ count is_step evs = 0.
Proof.
  intros [-> | ->].
  - exists w, []. rewrite app_nil_r. repeat split; reflexivity.
  - enough (H : post (q_learning_locals E choose alpha gamma eps iter_max 0) w
                  (fun o w' =>
                     o = Ok (np_zeros2 (observation_space_n E) (action_space_n E), []) /\
                     exists evs, trace w' = trace w ++ evs /\
                       count is_reset evs = iter_max /\ count is_step evs = 0)).
    { unfold post in H.
      destruct (q_learning_locals E choose alpha gamma eps iter_max 0 w) as [o w'].
      simpl in H. destruct H as (-> & evs & H1 & H2 & H3). exists w', evs. auto. }
    unfold q_learning_locals.
    apply (post_for_range
      (fun k (s : matrix * list Q) w1 =>
         s = (np_zeros2 (observation_space_n E) (action_space_n E), []) /\
         exists evs, trace w1 = trace w ++ evs /\
           count is_reset evs = k /\ count is_step evs = 0)).
    + split; [reflexivity |]. exists []. rewrite app_nil_r. auto.
    + intros k s w1 _ (-> & evs & Htr & Hres & Hsteps).
      assert (Hinv : exists evs0,
                trace w1 ++ [Reset (reset E (sim w1)).1] = trace w ++ evs0 /\
                count is_reset evs0 = S k /\ count is_step evs0 = 0).
      { exists (evs ++ [Reset (reset E (sim w1)).1]).
        rewrite Htr, <- app_assoc, !count_app. simpl. repeat split; lia. }
      apply post_bind. unfold post at 1, env_reset.
      destruct (reset E (sim w1)) as [obs st]. unfold after; cbv beta iota.
      cbn [fst snd] in *.
      apply post_bind. unfold q_learning_episode. cbn [range seq for_in].
      apply post_ret. unfold after; cbv beta iota.
      apply post_bind.
      apply post_if; unfold post, print, ret, body_post, after; simpl; auto.
    + intros s w1 [-> H]. split; [reflexivity | exact H].
Qed.

(** C7, amended.  Nothing looks at the configuration: [value_iteration]
    returns a value table for every discount and every environment, one
    without states or actions included; the outcome of [q_learning] as it
    stands does not depend on the learning rate, the discount or epsilon
    at all; and without actions, a call of [q_learning] whose episodes
    take no step ([iter_max = 0] or [t_max = 0]) makes its [iter_max]
    resets and then fails at its last line, with the [ValueError] of
    [np.argmax]. *)
Theorem no_configuration_is_checked :
  (forall (E : Env) (gamma : Q) (w : World E),
     exists v w', value_iteration E gamma w = (Ok v, w')) /\
  (forall (E : Env) (G : gmap string pyobj) (alpha alpha' gamma gamma' eps eps' : Q)
          (iter_max t_max : nat) (w : World E),
     q_learning E G alpha gamma eps iter_max t_max w
       = q_learning E G alpha' gamma' eps' iter_max t_max w) /\
  (forall (E : Env) (G : gmap string pyobj) (alpha gamma eps : Q)
          (iter_max t_max : nat) (w : World E),
     action_space_n E = 0 -> iter_max = 0 \/ t_max = 0 ->
     exists w' evs,
       q_learning E G alpha gamma eps iter_max t_max w = (Raise ValueError, w') /\
       trace w' = trace w ++ evs /\
       count is_reset evs = iter_max /\ count is_step evs = 0).
Proof.
  split; [| split].
  - intros E gamma w. destruct max_iterations_pos as [n Hn].
    unfold value_iteration. rewrite Hn, range_S. eexists _, _. reflexivity.
  - intros. reflexivity.
  - intros E G alpha gamma eps iter_max t_max w Hzero Hnostep.
    destruct (locals_without_step E (choose_action E G) alpha gamma eps iter_max t_max w
                Hnostep) as (w' & evs & Hrun & Htr & Hres & Hsteps).
    exists w', evs. repeat split; auto.
    unfold q_learning, q_learning_with, bind. rewrite Hrun.
    unfold np_argmax_axis1, np_zeros2. cbn [ncols]. rewrite Hzero. reflexivity.
Qed.

(** Two episodes of no step in the environment without actions. *)
Lemma no_configuration_is_checked_witness :
  exists w' evs,
    q_learning empty_env (module_globals some_binding) (1 # 2) 2 5 2 0 (fresh empty_env tt)
      = (Raise ValueError, w') /\
    trace w' = [] ++ evs /\ count is_reset evs = 2 /\ count is_step evs = 0.
Proof.
  apply (proj2 (proj2 no_configuration_is_checked) empty_env
           (module_globals some_binding) (1 # 2)%Q 2%Q 5%Q 2 0 (fresh empty_env tt)).
  - reflexivity.
  - right. reflexivity.
Defined.

(** ** The sampler of the GAN notebook *)

Lemma py_range_lookup (a b : Z) (k : nat) :
  k < Z.to_nat (b - a) -> py_range a b !! k = Some (a + Z.of_nat k)%Z.
Proof.
  intros Hk. unfold py_range.
  change (map ?f ?l) with (f <$> l).
  rewrite list_lookup_fmap, lookup_seq_lt by assumption. reflexivity.
Qed.

Lemma length_py_range (a b : Z) : length (py_range a b) = Z.to_nat (b - a).
Proof. unfold py_range. now rewrite length_map, length_seq. Qed.

Lemma elem_of_py_range (a b i : Z) : i ∈ py_range a b <-> (a <= i < b)%Z.
Proof.
  unfold py_range. change (map ?f ?l) with (f <$> l).
  rewrite list_elem_of_fmap. split.
  - intros (k & -> & Hk). apply elem_of_seq in Hk. lia.
  - intros Hi. exists (Z.to_nat (i - a)). split; [lia |].
    apply elem_of_seq. lia.
Qed.

(** X1.  A sampler yields the indices [start], [start + 1], ... in this
    order, [num_samples] of them; the number yielded is what [__len__]
    answers whenever [num_samples] is not negative, and a negative
    [num_samples] yields nothing. *)
Theorem chunk_sampler_yields_consecutive (self : ChunkSampler.t) :
  (forall k : nat,
     k < Z.to_nat (ChunkSampler.num_samples self) ->
     ChunkSampler.iter self !! k = Some (ChunkSampler.start self + Z.of_nat k)%Z) /\
  length (ChunkSampler.iter self) = Z.to_nat (ChunkSampler.num_samples self) /\
  ((0 <= ChunkSampler.num_samples self)%Z ->
   Z.of_nat (length (ChunkSampler.iter self)) = ChunkSampler.len self) /\
  ((ChunkSampler.num_samples self < 0)%Z -> ChunkSampler.iter self = []).
Proof.
  destruct self as [n s]. unfold ChunkSampler.iter, ChunkSampler.len. simpl.
  replace (s + n - s)%Z with n by lia.
  assert (Hlen : length (py_range s (s + n)) = Z.to_nat n).
  { rewrite length_py_range. f_equal. lia. }
  repeat split.
  - intros k Hk. apply py_range_lookup. lia.
  - exact Hlen.
  - intros Hn. rewrite Hlen. lia.
  - intros Hn. apply length_zero_iff_nil. rewrite Hlen. lia.
Qed.

(** X2.  A sampler that starts where another one ends continues it: the
    two share no index, and one after the other they yield what a single
    sampler over both chunks yields. *)
Theorem chunk_samplers_adjacent (n1 n2 s : Z) :
  (0 <= n1)%Z -> (0 <= n2)%Z ->
  ChunkSampler.iter (ChunkSampler.init n1 s)
    ++ ChunkSampler.iter (ChunkSampler.init n2 (s + n1))
    = ChunkSampler.iter (ChunkSampler.init (n1 + n2) s) /\
  (forall i, i ∈ ChunkSampler.iter (ChunkSampler.init n1 s) ->
             i ∉ ChunkSampler.iter (ChunkSampler.init n2 (s + n1))).
Proof.
  intros H1 H2. unfold ChunkSampler.iter. simpl. split.
  - apply list_eq. intros k.
    destruct (decide (k < Z.to_nat n1)) as [Hk | Hk].
    + rewrite lookup_app_l by (rewrite length_py_range; lia).
      rewrite !py_range_lookup by lia. reflexivity.
    + rewrite lookup_app_r by (rewrite length_py_range; lia).
      rewrite length_py_range.
      destruct (decide (k < Z.to_nat (n1 + n2))) as [Hk' | Hk'].
      * rewrite !py_range_lookup by lia. f_equal. lia.
      * rewrite !lookup_ge_None_2; [reflexivity | |]; rewrite length_py_range; lia.
  - intros i Hi Hi'. apply elem_of_py_range in Hi, Hi'. lia.
Qed.

Lemma chunk_samplers_adjacent_witness :
  ChunkSampler.iter sampler_train ++ ChunkSampler.iter sampler_val
    = ChunkSampler.iter (ChunkSampler.init (NUM_TRAIN + NUM_VAL) 0) /\
  (forall i, i ∈ ChunkSampler.iter sampler_train -> i ∉ ChunkSampler.iter sampler_val).
Proof.
  apply (chunk_samplers_adjacent NUM_TRAIN NUM_VAL 0); unfold NUM_TRAIN, NUM_VAL; lia.
Defined.

(** ** Letters and indices *)

Lemma getkeys_Ok {K V} `{Countable K} (d : gmap K V) (ks : list K) (vs : list V) :
  getkeys d ks = Ok vs <-> Forall2 (fun k v => d !! k = Some v) ks vs.
Proof.
  revert vs. induction ks as [|k ks IH]; intros vs; simpl.
  - split; [intros [= <-]; constructor | intros Hf; inversion Hf; reflexivity].
  - unfold getkey. destruct (d !! k) as [v|] eqn:Hk; simpl.
    + destruct (getkeys d ks) as [vs'| |] eqn:Hks; simpl.
      * split.
        -- intros [= <-]. constructor; [assumption | now apply IH].
        -- intros Hf. inversion Hf as [|? v' ? vs'' Hv Hrest]; subst.
           apply IH in Hrest. congruence.
      * split; [discriminate |].
        intros Hf. inversion Hf as [|? v' ? vs'' Hv Hrest]; subst.
        apply IH in Hrest. discriminate.
      * split; [discriminate |].
        intros Hf. inversion Hf as [|? v' ? vs'' Hv Hrest]; subst.
        apply IH in Hrest. discriminate.
    + split; [discriminate |].
      intros Hf. inversion Hf; subst. congruence.
Qed.

Lemma getkeys_missing {K V} `{Countable K} (d : gmap K V) (ks : list K) :
  Exists (fun k => d !! k = None) ks -> getkeys d ks = Raise KeyError.
Proof.
  induction ks as [|k ks IH]; intros Hex; [inversion Hex |]. simpl. unfold getkey.
  destruct (d !! k) as [v|] eqn:Hk; simpl; [| reflexivity].
  inversion Hex as [? ? Hnone | ? ? Hrest]; subst; [congruence |].
  now rewrite (IH Hrest).
Qed.

Lemma getkeys_agree {K V} `{Countable K} (d d' : gmap K V) (ks : list K) :
  Forall (fun k => d !! k = d' !! k) ks -> getkeys d ks = getkeys d' ks.
Proof.
  induction 1 as [|k ks Hk _ IH]; simpl; [reflexivity |].
  unfold getkey. now rewrite Hk, IH.
Qed.

(** The entries of [letter2idx] are the letters with their positions in
    [all_letters]. *)
Lemma letter2idx_position (c : string) (i : nat) :
  letter2idx !! c = Some i <-> chars all_letters !! i = Some c.
Proof.
  split.
  - intros Hc. apply elem_of_map_to_list, list_elem_of_In in Hc.
    assert (Hall : forallb (fun kv : string * nat =>
                      bool_decide (chars all_letters !! kv.2 = Some kv.1))
                     (map_to_list letter2idx) = true) by (vm_compute; reflexivity).
    rewrite forallb_forall in Hall. apply Hall in Hc.
    now apply bool_decide_eq_true in Hc.
  - intros Hi.
    assert (Hall : forallb (fun i : nat =>
                      match chars all_letters !! i with
                      | Some c => bool_decide (letter2idx !! c = Some i)
                      | None => false
                      end) (seq 0 n_letters) = true) by (vm_compute; reflexivity).
    rewrite forallb_forall in Hall.
    assert (Hlt : i < n_letters).
    { apply lookup_lt_Some in Hi. exact Hi. }
    specialize (Hall i ltac:(apply in_seq; lia)). rewrite Hi in Hall.
    now apply bool_decide_eq_true in Hall.
Qed.

Lemma letter2idx_unknown (c : string) :
  c ∉ chars all_letters -> letter2idx !! c = None.
Proof.
  intros Hc. destruct (letter2idx !! c) as [i|] eqn:Hi; [| reflexivity].
  apply letter2idx_position in Hi. exfalso. apply Hc.
  eapply list_elem_of_lookup_2. exact Hi.
Qed.

(** X3.  On a line of letters of [all_letters], [line_to_idxs] answers
    one index for each character, in order: the position of the character
    in [all_letters], below [n_letters]. *)
Theorem line_to_idxs_positions (line : string) :
  Forall (fun c => c ∈ chars all_letters) (chars line) ->
  exists idxs,
    line_to_idxs line = Ok idxs /\
    Forall2 (fun c i => i < n_letters /\ chars all_letters !! i = Some c) (chars line) idxs.
Proof.
  intros Hknown. unfold line_to_idxs.
  assert (Hex : exists idxs,
             Forall2 (fun c i => letter2idx !! c = Some i) (chars line) idxs).
  { induction Hknown as [|c cs Hc _ [idxs IH]]; [exists []; constructor |].
    apply list_elem_of_lookup_1 in Hc as [i Hi].
    exists (i :: idxs). constructor; [now apply letter2idx_position | exact IH]. }
  destruct Hex as [idxs Hidxs]. exists idxs. split; [now apply getkeys_Ok |].
  eapply Forall2_impl; [exact Hidxs |].
  intros c i Hci. apply letter2idx_position in Hci. split; [| exact Hci].
  apply lookup_lt_Some in Hci. exact Hci.
Qed.

Lemma line_to_idxs_positions_witness :
  exists idxs,
    line_to_idxs "Jones" = Ok idxs /\
    Forall2 (fun c i => i < n_letters /\ chars all_letters !! i = Some c)
            (chars "Jones") idxs.
Proof.
  apply (line_to_idxs_positions "Jones").
  apply Forall_forall. intros c Hc.
  apply list_elem_of_In in Hc. apply list_elem_of_In.
  simpl in Hc. simpl.
  repeat (destruct Hc as [<- | Hc]; [intuition auto 70 |]). contradiction.
Defined.

(** X4.  A line with a character outside [all_letters] makes
    [line_to_idxs] raise [KeyError]. *)
Theorem line_to_idxs_foreign_character (line : string) :
  Exists (fun c => c ∉ chars all_letters) (chars line) ->
  line_to_idxs line = Raise KeyError.
Proof.
  intros Hex. unfold line_to_idxs. apply getkeys_missing.
  eapply Exists_impl; [exact Hex |]. intros c. apply letter2idx_unknown.
Qed.

Lemma line_to_idxs_foreign_character_witness :
  line_to_idxs "R2D2" = Raise KeyError.
Proof.
  apply (line_to_idxs_foreign_character "R2D2").
  apply Exists_cons_tl, Exists_cons_hd.
  intros Hc. apply list_elem_of_In in Hc. simpl in Hc.
  repeat (destruct Hc as [Hc | Hc]; [discriminate Hc |]). contradiction.
Defined.

(** ** Letters and indices of the generation part *)

(** X5.  [idx2letter] is the inverse of [letter2idx], the two markers
    included: a key has an index exactly if the index has that key. *)
Theorem idx2letter_inverts_letter2idx (c : string) (i : nat) :
  Generation.letter2idx !! c = Some i <-> Generation.idx2letter !! i = Some c.
Proof.
  split.
  - intros Hc. apply elem_of_map_to_list, list_elem_of_In in Hc.
    assert (Hall : forallb (fun kv : string * nat =>
                      bool_decide (Generation.idx2letter !! kv.2 = Some kv.1))
                     (map_to_list Generation.letter2idx) = true)
      by (vm_compute; reflexivity).
    rewrite forallb_forall in Hall. apply Hall in Hc.
    now apply bool_decide_eq_true in Hc.
  - intros Hi. apply elem_of_map_to_list, list_elem_of_In in Hi.
    assert (Hall : forallb (fun kv : nat * string =>
                      bool_decide (Generation.letter2idx !! kv.2 = Some kv.1))
                     (map_to_list Generation.idx2letter) = true)
      by (vm_compute; reflexivity).
    rewrite forallb_forall in Hall. apply Hall in Hi.
    now apply bool_decide_eq_true in Hi.
Qed.

(** A character of a line is one character long, so it is neither of
    the markers. *)
Lemma chars_not_marker (line : string) :
  Forall (fun c => Generation.letter2idx !! c = letter2idx !! c) (chars line).
Proof.
  unfold chars. apply Forall_forall. intros c Hc.
  change (map ?f ?l) with (f <$> l) in Hc.
  apply list_elem_of_fmap in Hc as (a & -> & _).
  unfold Generation.letter2idx.
  rewrite !lookup_insert_ne by discriminate. reflexivity.
Qed.

(** X6.  The [line_to_idxs] of part 2 is the one of part 1 between the
    two markers: it answers [n_letters], the indices of the letters, then
    [n_letters + 1], and raises [KeyError] exactly when the other does. *)
Theorem line_to_idxs_adds_markers (line : string) :
  Generation.line_to_idxs line =
    and_then (line_to_idxs line)
             (fun idxs => Ok ([n_letters] ++ idxs ++ [n_letters + 1])).
Proof.
  unfold Generation.line_to_idxs, line_to_idxs.
  rewrite (getkeys_agree _ _ _ (chars_not_marker line)).
  destruct (getkeys letter2idx (chars line)); reflexivity.
Qed.

(** X7.  For a line that [line_to_idxs] accepts, the training cell of
    part 2 feeds the network the start marker followed by the letters and
    expects the letters followed by the end marker: the target at each
    position is the input at the next one. *)
Theorem training_pair_is_shifted (line : string) (idxs : list nat) :
  line_to_idxs line = Ok idxs ->
  exists line_tensor,
    Generation.line_to_idxs line = Ok line_tensor /\
    Generation.training_pair line_tensor
      = (idxs ++ [n_letters + 1], n_letters :: idxs) /\
    forall k target,
      (Generation.training_pair line_tensor).1 !! k = Some target ->
      line_tensor !! S k = Some target.
Proof.
  intros Hline.
  assert (Hsos : getkey Generation.letter2idx "<SOS>" = Ok n_letters)
    by (vm_compute; reflexivity).
  assert (Heos : getkey Generation.letter2idx "<EOS>" = Ok (n_letters + 1))
    by (vm_compute; reflexivity).
  unfold Generation.line_to_idxs.
  rewrite (getkeys_agree _ _ _ (chars_not_marker line)).
  unfold line_to_idxs in Hline. rewrite Hline, Hsos, Heos. cbn [and_then].
  eexists. split; [reflexivity |].
  unfold Generation.training_pair. simpl.
  rewrite length_app. simpl.
  replace (length idxs + 1 - 0) with (S (length idxs)) by lia.
  rewrite firstn_cons. split.
  - f_equal. f_equal.
    change (firstn ?n ?l) with (take n l).
    rewrite take_app_length. reflexivity.
  - intros k target Hk. rewrite drop_0 in Hk. exact Hk.
Qed.

Lemma training_pair_is_shifted_witness :
  exists line_tensor,
    Generation.line_to_idxs "Jones" = Ok line_tensor /\
    Generation.training_pair line_tensor
      = ([35; 14; 13; 4; 18] ++ [n_letters + 1], n_letters :: [35; 14; 13; 4; 18]) /\
    forall k target,
      (Generation.training_pair line_tensor).1 !! k = Some target ->
      line_tensor !! S k = Some target.
Proof.
  apply (training_pair_is_shifted "Jones" [35; 14; 13; 4; 18]).
  vm_compute. reflexivity.
Defined.

(** ** generate as it stands *)

Section GenerateFacts.
Context {E : Env} (init_hidden : Py E unit) (model : option nat -> Py E unit).

(** The rule of a [for] loop over any list, with an invariant that does
    not count. *)
Lemma post_for_each {A T} (I : T -> World E -> Prop) (R : outcome T -> World E -> Prop)
    (body : A -> T -> Py E (ctl * T)) (xs : list A) :
  forall s w,
    I s w ->
    (forall x s w, x ∈ xs -> I s w -> post (body x s) w (body_post I R)) ->
    (forall s w, I s w -> R (Ok s) w) ->
    post (Generation.for_each xs body s) w R.
Proof.
  induction xs as [|x xs IH]; intros s w HI Hbody Hend; simpl.
  - apply post_ret. now apply Hend.
  - apply post_bind.
    assert (Hx : post (body x s) w (body_post I R)).
    { apply Hbody; [left | exact HI]. }
    revert Hx. apply post_weaken. intros [[c s']|e|] w'; simpl; auto.
    destruct c; simpl; auto.
    intros HI'. apply IH; auto.
    intros y s1 w1 Hy. apply Hbody. now right.
Qed.

Lemma getkey_start_marker : getkey Generation.letter2idx "<SOS>" = Ok n_letters.
Proof. vm_compute. reflexivity. Qed.

(** The sampling loop ends in its first turn: in the collaborator, or in
    [output_str += sample_char] with [sample_char] being [None]. *)
Lemma sampling_loop_fails (chars_input : option nat) (output_str : string) (w : World E)
    (body := fun (i : nat) '(chars_input, output_str) =>
       run model chars_input ;;
       let sample_char_id : option nat := None in
       let sample_char : option string := None in
       if bool_decide (sample_char = Some "<EOS>") then
         ret (Break, (chars_input, output_str))
       else
         do output_str <- Generation.lift (Generation.add_str output_str sample_char) ;;
         let chars_input := sample_char_id in
         ret (Next, (chars_input, output_str))) :
  let r := for_in (range Generation.max_length) body (chars_input, output_str) w in
  (forall s, r.1 <> Ok s) /\
  ((model chars_input w).1 = Ok tt -> r.1 = Raise TypeError).
Proof.
  change (range Generation.max_length) with (0 :: seq 1 19).
  subst body. simpl for_in. unfold bind, Generation.lift, Generation.add_str.
  destruct (model chars_input w) as [[[]|e|] w1]; simpl; split; congruence.
Qed.

(** X8.  As it stands [generate] never returns a name.  Whatever the
    network does, the call ends with an exception (or in the network);
    when the network answers its calls and the start characters are
    letters of [all_letters], the exception is the [TypeError] of adding
    [None] to the output string, in the first turn of the sampling loop. *)
Theorem generate_never_returns (start_chars : string) (temperature : Q) (w : World E) :
  (forall name,
     (Generation.generate init_hidden model start_chars temperature w).1 <> Ok name) /\
  ((forall w', (init_hidden w').1 = Ok tt) ->
   (forall c w', (model c w').1 = Ok tt) ->
   Forall (fun c => c ∈ chars all_letters) (chars start_chars) ->
   (Generation.generate init_hidden model start_chars temperature w).1 = Raise TypeError).
Proof.
  assert (Hpost : post (Generation.generate init_hidden model start_chars temperature) w
            (fun o _ =>
               (forall name, o <> Ok name) /\
               ((forall w', (init_hidden w').1 = Ok tt) ->
                (forall c w', (model c w').1 = Ok tt) ->
                Forall (fun c => c ∈ chars all_letters) (chars start_chars) ->
                o = Raise TypeError))).
  2:{ exact Hpost. }
  unfold Generation.generate.
  apply post_bind. unfold post at 1.
  destruct (init_hidden w) as [[[]|e|] w0] eqn:Hinit; unfold after; cbv beta iota.
  2,3: (cbn [fst snd]; split; [congruence |]; intros Hi _ _; specialize (Hi w);
        rewrite Hinit in Hi; discriminate Hi).
  cbn [fst snd].
  apply post_bind. unfold post at 1, Generation.lift. rewrite getkey_start_marker.
  unfold after; cbv beta iota. cbn [fst snd].
  apply post_bind.
  apply (post_for_each (fun _ _ => True)); [exact I | |].
  - intros char [chars_input output_str] w1 Hchar _.
    apply post_bind. unfold post at 1.
    destruct (model chars_input w1) as [[[]|e|] w2] eqn:Hmodel;
      unfold after, body_post; cbv beta iota; cbn [fst snd].
    2,3: (split; [congruence |]; intros _ Hm _; specialize (Hm chars_input w1);
          rewrite Hmodel in Hm; discriminate Hm).
    apply post_bind. unfold post at 1, Generation.lift, getkey.
    destruct (Generation.letter2idx !! char) as [i|] eqn:Hi;
      unfold after; cbv beta iota; cbn [fst snd].
    + apply post_ret. exact I.
    + split; [congruence |]. intros _ _ Hknown. exfalso.
      rewrite Forall_forall in Hknown. specialize (Hknown char Hchar).
      pose proof (chars_not_marker start_chars) as Hsame.
      rewrite Forall_forall in Hsame. rewrite (Hsame char Hchar) in Hi.
      apply list_elem_of_lookup_1 in Hknown as [j Hj].
      apply letter2idx_position in Hj. congruence.
  - intros [chars_input output_str] w1 _.
    unfold after; cbv beta iota.
    apply post_bind. unfold post at 1.
    destruct (sampling_loop_fails chars_input output_str w1) as [Hnot Htype].
    cbv zeta in Hnot, Htype.
    destruct (for_in _ _ _ w1) as [[[ci os]|e|] w2];
      unfold after; cbv beta iota; cbn [fst snd] in *.
    + exfalso. exact (Hnot _ eq_refl).
    + split; [congruence |]. intros _ Hm _.
      specialize (Htype (Hm _ _)). congruence.
    + split; [congruence |]. intros _ Hm _.
      specialize (Htype (Hm _ _)). discriminate Htype.
Qed.
End GenerateFacts.

Lemma generate_never_returns_witness :
  (Generation.generate (E := chain_env) (ret tt) (fun _ => ret tt) "Jo" (1 # 2)
     (fresh chain_env 0)).1 = Raise TypeError.
Proof.
  apply (proj2 (generate_never_returns (E := chain_env) (ret tt) (fun _ => ret tt)
                  "Jo" (1 # 2) (fresh chain_env 0))).
  - intros w'. reflexivity.
  - intros c w'. reflexivity.
  - apply Forall_forall. intros c Hc.
    apply list_elem_of_In in Hc. apply list_elem_of_In.
    simpl in Hc. simpl.
    repeat (destruct Hc as [<- | Hc]; [intuition auto 70 |]). contradiction.
Defined.

(** ** More on evaluate_policy *)

(** X9.  A call of [evaluate_policy] that returns has run one episode:
    from the observation of its one reset it took [int(policy[obs])] at
    each observation, only its last step reported [done], and the value
    returned is the sum of the rewards of the steps. *)
Theorem evaluate_policy_ran_one_episode (E : Env) (fuel : nat) (policy : loc)
    (render : bool) (w : World E) (total : Q) (w' : World E) :
  evaluate_policy E fuel policy render w = (Ok total, w') ->
  exists pol steps,
    heap w !! policy = Some pol /\
    rollout E pol (reset E (sim w)).2 (reset E (sim w)).1 steps (sim w') /\
    total = total_from 0 steps /\
    trace w' = trace w ++ Reset (reset E (sim w)).1 :: steps /\
    count is_reset steps = 0 /\ count is_done steps = 1.
Proof.
  intros Hrun.
  destruct (evaluate_policy_returned E fuel policy render w total w' Hrun)
    as (pol & steps & Hpol & Hroll & Htot & Htr & _).
  exists pol, steps. repeat split; auto.
  - clear - Hroll. revert Hroll. generalize (reset E (sim w)).2, (reset E (sim w)).1.
    induction steps as [|[o|a obs' r d] rest IH]; intros st obs Hroll;
      simpl in Hroll; try contradiction.
    destruct Hroll as [_ (st' & _ & Hrest)]. simpl.
    destruct d; [destruct Hrest as [-> _]; reflexivity | eauto].
  - clear - Hroll. revert Hroll. generalize (reset E (sim w)).2, (reset E (sim w)).1.
    induction steps as [|[o|a obs' r d] rest IH]; intros st obs Hroll;
      simpl in Hroll; try contradiction.
    destruct Hroll as [_ (st' & _ & Hrest)]. simpl.
    destruct d; [destruct Hrest as [-> _]; reflexivity | eauto].
Qed.

Lemma evaluate_policy_ran_one_episode_witness :
  exists pol steps,
    heap (with_policy_0 alternating_env 0) !! 0 = Some pol /\
    rollout alternating_env pol 1 0 steps (1 : St alternating_env) /\
    (1 : Q) = total_from 0 steps /\
    [Reset 0; Step (PyInt 0) 0 1 true] = [] ++ Reset 0 :: steps /\
    count is_reset steps = 0 /\ count is_done steps = 1.
Proof.
  apply (evaluate_policy_ran_one_episode alternating_env 5 0 false
           (with_policy_0 alternating_env 0) 1%Q
           (mkWorld (1 : St alternating_env) [[0%Q]] []
                    [Reset 0; Step (PyInt 0) 0 1 true])).
  vm_compute. reflexivity.
Defined.

(** X10.  When the observation after the reset is no index of the policy
    array, [evaluate_policy] raises [IndexError] at [policy[obs]]: the
    environment is reset, the first frame is printed if [render] is set,
    and no step is taken. *)
Theorem evaluate_policy_policy_too_short (E : Env) (fuel : nat) (policy : loc)
    (render : bool) (w : World E) (pol : list Q) :
  heap w !! policy = Some pol ->
  length pol <= (reset E (sim w)).1 ->
  evaluate_policy E (S fuel) policy render w
    = (Raise IndexError,
       mkWorld (reset E (sim w)).2 (heap w)
               (stdout w ++ (if render
                             then [Out_render (frame_of E (reset E (sim w)).2)]
                             else []))
               (trace w ++ [Reset (reset E (sim w)).1])).
Proof.
  intros Hpol Hlen.
  unfold evaluate_policy, bind at 1, env_reset.
  destruct (reset E (sim w)) as [obs st]. simpl in Hlen.
  unfold bind at 1. rewrite while_true_S.
  unfold evaluate_policy_body, bind, getitem, env_render, print.
  destruct render; simpl; rewrite Hpol, (lookup_ge_None_2 pol obs Hlen); simpl;
    rewrite ?app_nil_r; reflexivity.
Qed.

Lemma evaluate_policy_policy_too_short_witness :
  evaluate_policy chain_env 3 0 true (mkWorld (0 : St chain_env) [[]] [] [])
    = (Raise IndexError,
       mkWorld (0 : St chain_env) [[]] ([] ++ [Out_render "[S]G"]) ([] ++ [Reset 0])).
Proof.
  apply (evaluate_policy_policy_too_short chain_env 2 0 true
           (mkWorld (0 : St chain_env) [[]] [] []) []).
  - reflexivity.
  - simpl. lia.
Defined.

(** What one turn of the loop prints. *)
Lemma evaluate_policy_body_prints (E : Env) (policy : loc) (render : bool)
    (obs : nat) (tot : Q) (w : World E) c l w' :
  evaluate_policy_body E policy render (obs, tot) w = (Ok (c, l), w') ->
  stdout w' = stdout w ++ (if render then [Out_render (frame_of E (sim w))] else []).
Proof.
  unfold evaluate_policy_body, bind, getitem, env_step, env_render, print.
  destruct render; simpl.
  all: destruct (heap w !! policy) as [pol|]; simpl; [| discriminate].
  all: destruct (pol !! obs) as [x|]; simpl; [| discriminate].
  all: destruct (step E (sim w) (PyInt (py_int x))) as [[e|[[obs' r] d]] st];
    simpl; [discriminate |].
  all: destruct d; simpl; intros [= <- <- <-]; simpl; auto using app_nil_r.
Qed.

(** X11.  A call of [evaluate_policy] that returns has printed one frame
    of [env.render()] for each step it took when [render] is set, and
    nothing when it is not. *)
Theorem evaluate_policy_renders_each_step (E : Env) (fuel : nat) (policy : loc)
    (render : bool) (w : World E) (total : Q) (w' : World E) :
  evaluate_policy E fuel policy render w = (Ok total, w') ->
  exists evs frames,
    trace w' = trace w ++ evs /\
    stdout w' = stdout w ++ frames /\
    Forall (fun o => exists frame, o = Out_render frame) frames /\
    length frames = (if render then count is_step evs else 0).
Proof.
  unfold evaluate_policy, bind at 1, env_reset.
  destruct (reset E (sim w)) as [obs0 st1]. unfold bind.
  destruct (while_true fuel _ _ _) as [[[obs' tot']|e|] w2] eqn:Hloop; try discriminate.
  intros [= <- <-].
  assert (Hgen : forall fuel obs tot (w1 : World E) obs' tot' w2,
             while_true fuel (evaluate_policy_body E policy render) (obs, tot) w1
               = (Ok (obs', tot'), w2) ->
             exists evs frames,
               trace w2 = trace w1 ++ evs /\ stdout w2 = stdout w1 ++ frames /\
               Forall (fun o => exists frame, o = Out_render frame) frames /\
               count is_reset evs = 0 /\
               length frames = (if render then count is_step evs else 0)).
  { clear. induction fuel as [|fuel IH]; intros obs tot w1 obs' tot' w2 Hrun;
      [discriminate |].
    rewrite while_true_S in Hrun.
    pose proof (evaluate_policy_body_cases E policy render obs tot w1) as [_ Hbody].
    pose proof (evaluate_policy_body_prints E policy render obs tot w1) as Hprint.
    destruct (evaluate_policy_body E policy render (obs, tot) w1)
      as [[[c [obs1 tot1]]|e|] w3]; simpl in Hbody; try discriminate.
    specialize (Hprint c (obs1, tot1) w3 eq_refl).
    destruct Hbody as (pol & x & r & d & st1 & _ & _ & _ & _ & Htr & _ & -> & _).
    destruct d.
    - injection Hrun as <- <- <-.
      exists [Step (PyInt (py_int x)) obs1 r true],
             (if render then [Out_render (frame_of E (sim w1))] else []).
      repeat split; auto.
      + destruct render; repeat constructor. eauto.
      + destruct render; reflexivity.
    - apply IH in Hrun as (evs & frames & Htr' & Hout' & Hall & Hres & Hlen).
      exists (Step (PyInt (py_int x)) obs1 r false :: evs),
             ((if render then [Out_render (frame_of E (sim w1))] else []) ++ frames).
      repeat split.
      + rewrite Htr', Htr, <- app_assoc. reflexivity.
      + rewrite Hout', Hprint, <- app_assoc. reflexivity.
      + apply Forall_app. split; [| exact Hall].
        destruct render; repeat constructor. eauto.
      + exact Hres.
      + rewrite length_app, Hlen. destruct render; simpl; reflexivity. }
  apply Hgen in Hloop as (evs & frames & Htr & Hout & Hall & Hres & Hlen).
  simpl in Htr, Hout.
  exists (Reset obs0 :: evs), frames. repeat split; auto.
  rewrite Htr, <- app_assoc. reflexivity.
Qed.

Lemma evaluate_policy_renders_each_step_witness :
  exists evs frames,
    [Reset 0; Step (PyInt 0) 1 1 true] = [] ++ evs /\
    [Out_render "[S]G"] = [] ++ frames /\
    Forall (fun o => exists frame, o = Out_render frame) frames /\
    length frames = count is_step evs.
Proof.
  apply (evaluate_policy_renders_each_step chain_env 4 0 true
           (mkWorld (0 : St chain_env) [[0%Q; 0%Q]] [] []) 1%Q
           (mkWorld (1 : St chain_env) [[0%Q; 0%Q]] [Out_render "[S]G"]
                    [Reset 0; Step (PyInt 0) 1 1 true])).
  vm_compute. reflexivity.
Defined.

(** ** The score printed by the cells *)

Lemma rollout_shape (E : Env) (pol : list Q) (steps : list interaction) :
  forall (st : St E) (obs : nat) (st_end : St E),
    rollout E pol st obs steps st_end ->
    count is_reset steps = 0 /\ count is_done steps = 1 /\
    forall acc, history_from acc steps = [total_from acc steps].
Proof.
  induction steps as [|[o|a obs' r d] rest IH]; intros st obs st_end Hroll;
    simpl in Hroll; try contradiction.
  destruct Hroll as [_ (st' & _ & Hrest)]. simpl.
  destruct d.
  - destruct Hrest as [-> _]. simpl. auto.
  - destruct (IH _ _ _ Hrest) as (H1 & H2 & H3). auto.
Qed.

(** X12.  The score of the cells, [np.mean] over [n] calls of
    [evaluate_policy], is what the specification asks of
    [evaluate_policy] itself: when it returns, [n] episodes were run one
    after the other in the same environment, each to a step that reported
    [done], and the score is the mean of their total rewards. *)
Theorem policy_average_score_is_mean (E : Env) (fuel : nat) (policy : loc) (n : nat)
    (w : World E) (score : Q) (w' : World E) :
  0 < n ->
  policy_average_score E fuel policy n w = (Ok score, w') ->
  exists evs,
    trace w' = trace w ++ evs /\
    count is_reset evs = n /\ count is_done evs = n /\
    length (history_from 0 evs) = n /\
    score = np_mean (history_from 0 evs).
Proof.
  intros _ Hrun.
  assert (Hpost : post (for_in (range n) (fun (_ : nat) (scores : list Q) =>
                     do score <- evaluate_policy E fuel policy false ;;
                     ret (Next, scores ++ [score])) []) w
            (fun o w1 =>
               match o with
               | Ok scores => exists evs,
                   trace w1 = trace w ++ evs /\ count is_reset evs = n /\
                   count is_done evs = n /\ scores = history_from 0 evs
               | _ => True
               end)).
  { apply (post_for_in
      (fun k scores w1 => exists evs,
         trace w1 = trace w ++ evs /\ count is_reset evs = k /\
         count is_done evs = k /\ scores = history_from 0 evs)) with (k0 := 0).
    - exists []. rewrite app_nil_r. auto.
    - intros k x scores w1 _ (evs & Htr & Hres & Hdone & ->).
      apply post_bind. unfold post at 1.
      destruct (evaluate_policy E fuel policy false w1) as [[total|e|] w2] eqn:Heval;
        simpl; auto.
      apply evaluate_policy_returned in Heval
        as (pol & steps & _ & Hroll & -> & Htr' & _).
      destruct (rollout_shape E pol steps _ _ _ Hroll) as (Hr & Hd & Hh).
      apply post_ret. simpl.
      exists (evs ++ Reset (reset E (sim w1)).1 :: steps). repeat split.
      + rewrite Htr', Htr, <- app_assoc. reflexivity.
      + rewrite count_app. simpl. lia.
      + rewrite count_app. simpl. lia.
      + rewrite history_from_episode, Hh. reflexivity.
    - intros scores w1 Hinv. rewrite length_range in Hinv. exact Hinv. }
  unfold policy_average_score, bind in Hrun. unfold post in Hpost.
  destruct (for_in (range n) _ [] w) as [[scores|e|] w1]; try discriminate.
  injection Hrun as <- <-. simpl in Hpost.
  destruct Hpost as (evs & Htr & Hres & Hdone & ->).
  exists evs. repeat split; auto.
  now rewrite length_history_from.
Qed.

Lemma policy_average_score_is_mean_witness :
  exists evs,
    [Reset 0; Step (PyInt 0) 0 1 true; Reset 0; Step (PyInt 0) 0 0 true] = [] ++ evs /\
    count is_reset evs = 2 /\ count is_done evs = 2 /\
    length (history_from 0 evs) = 2 /\
    (1 # 2)%Q = np_mean (history_from 0 evs).
Proof.
  apply (policy_average_score_is_mean alternating_env 5 0 2
           (with_policy_0 alternating_env 0) (1 # 2)%Q
           (mkWorld (2 : St alternating_env) [[0%Q]] []
                    [Reset 0; Step (PyInt 0) 0 1 true; Reset 0; Step (PyInt 0) 0 0 true])).
  - lia.
  - vm_compute. reflexivity.
Defined.

(** ** More on q_learning *)

(** X13.  As the notebook stands, a call of [q_learning] with at least
    one episode of at least one step, in an environment whose reset
    answers a state of the table, ends in the first call of
    [choose_action]: it raises [NameError] after one reset, without a
    step and without a line printed. *)
Theorem q_learning_stops_at_first_choice (E : Env) (binding : string -> pyobj)
    (alpha gamma eps : Q) (iter_max t_max : nat) (w : World E) :
  0 < iter_max -> 0 < t_max ->
  (reset E (sim w)).1 < observation_space_n E ->
  q_learning E (module_globals binding) alpha gamma eps iter_max t_max w
    = (Raise (NameError "action"),
       mkWorld (reset E (sim w)).2 (heap w) (stdout w)
               (trace w ++ [Reset (reset E (sim w)).1])).
Proof.
  intros Hi Ht Hobs.
  destruct iter_max as [|n]; [lia |]. destruct t_max as [|m]; [lia |].
  unfold q_learning, q_learning_with, q_learning_locals, q_learning_episode.
  rewrite !range_S. cbn [for_in]. unfold bind, env_reset.
  destruct (reset E (sim w)) as [obs st]. simpl in Hobs.
  unfold getrow, np_zeros2. cbn [rows].
  rewrite lookup_replicate_2 by assumption.
  unfold ret, choose_action, load_global, bind.
  rewrite module_globals_action. reflexivity.
Qed.

Lemma q_learning_stops_at_first_choice_witness :
  q_learning chain_env (module_globals some_binding) (1 # 2) (96 # 100) (2 # 100)
      3 4 (fresh chain_env 0)
    = (Raise (NameError "action"),
       mkWorld (0 : St chain_env) [] [] ([] ++ [Reset 0])).
Proof.
  apply (q_learning_stops_at_first_choice chain_env some_binding
           (1 # 2) (96 # 100) (2 # 100) 3 4 (fresh chain_env 0)).
  - lia.
  - lia.
  - simpl. lia.
Defined.

(** X14.  Whatever [choose_action] is bound to: when the reset of the
    first episode answers a state that is no row of the table, [q_learning]
    raises [IndexError] at [q_table[s]], before [choose_action] is called
    and before any step. *)
Theorem q_learning_reset_out_of_range (E : Env)
    (choose : list Q -> Q -> nat -> Py E pyobj)
    (alpha gamma eps : Q) (iter_max t_max : nat) (w : World E) :
  0 < iter_max -> 0 < t_max ->
  observation_space_n E <= (reset E (sim w)).1 ->
  q_learning_with E choose alpha gamma eps iter_max t_max w
    = (Raise IndexError,
       mkWorld (reset E (sim w)).2 (heap w) (stdout w)
               (trace w ++ [Reset (reset E (sim w)).1])).
Proof.
  intros Hi Ht Hobs.
  destruct iter_max as [|n]; [lia |]. destruct t_max as [|m]; [lia |].
  unfold q_learning_with, q_learning_locals, q_learning_episode.
  rewrite !range_S. cbn [for_in]. unfold bind, env_reset.
  destruct (reset E (sim w)) as [obs st]. simpl in Hobs.
  unfold getrow, np_zeros2. cbn [rows].
  rewrite lookup_ge_None_2 by (rewrite length_replicate; lia). reflexivity.
Qed.

(** An environment whose reset answers a state beyond its state count. *)
Lemma q_learning_reset_out_of_range_witness :
  q_learning_with empty_env Spec.choose_greedy (1 # 2) (96 # 100) (2 # 100) 2 3
      (fresh empty_env tt)
    = (Raise IndexError, mkWorld (tt : St empty_env) [] [] ([] ++ [Reset 0])).
Proof.
  apply (q_learning_reset_out_of_range empty_env Spec.choose_greedy
           (1 # 2) (96 # 100) (2 # 100) 2 3 (fresh empty_env tt)).
  - lia.
  - lia.
  - simpl. lia.
Defined.

(** X15.  As the notebook stands, with its own [choose_action] (which
    hands back the module-level name [action] and does not touch the row
    it is given), whatever the module's globals are: the policy a call of
    [q_learning] returns has one entry for each state and every entry is
    action 0; nothing the episodes did reaches it. *)
Theorem q_learning_returns_action_0_everywhere (E : Env) (G : gmap string pyobj)
    (alpha gamma eps : Q) (iter_max t_max : nat) (w : World E) (p : loc) (w' : World E) :
  q_learning E G alpha gamma eps iter_max t_max w = (Ok p, w') ->
  exists policy,
    heap w' !! p = Some policy /\
    length policy = observation_space_n E /\
    Forall (fun a => py_int a = 0%Z) policy.
Proof.
  intros Hrun.
  exists (replicate (observation_space_n E) 0%Q). split; [| split].
  - exact (q_learning_policy_all_zero E (choose_action E G) alpha gamma eps iter_max t_max
             w p w' (choose_action_silent E G) Hrun).
  - apply length_replicate.
  - apply Forall_replicate. reflexivity.
Qed.

(** Two episodes in [flaky_env], the name [action] bound to 0. *)
Lemma q_learning_returns_action_0_everywhere_witness :
  exists policy,
    heap (q_learning flaky_env {[ "action" := PyInt 0 ]} (1 # 2) (96 # 100) (2 # 100) 2 3
            (fresh flaky_env 0)).2 !! 0 = Some policy /\
    length policy = observation_space_n flaky_env /\
    Forall (fun a => py_int a = 0%Z) policy.
Proof.
  apply (q_learning_returns_action_0_everywhere flaky_env {[ "action" := PyInt 0 ]}
           (1 # 2) (96 # 100) (2 # 100) 2 3 (fresh flaky_env 0) 0
           (q_learning flaky_env {[ "action" := PyInt 0 ]} (1 # 2) (96 # 100) (2 # 100) 2 3
              (fresh flaky_env 0)).2).
  vm_compute. reflexivity.
Defined.

(** X16.  In an environment without actions [q_learning] returns no
    policy, whatever [choose_action] is bound to: if the episodes get
    through, the [np.argmax] of the last line raises [ValueError]. *)
Theorem q_learning_needs_an_action (E : Env)
    (choose : list Q -> Q -> nat -> Py E pyobj)
    (alpha gamma eps : Q) (iter_max t_max : nat) (w : World E) :
  chooser_silent choose ->
  action_space_n E = 0 ->
  (forall p, (q_learning_with E choose alpha gamma eps iter_max t_max w).1 <> Ok p) /\
  (forall q rl w',
     q_learning_locals E choose alpha gamma eps iter_max t_max w = (Ok (q, rl), w') ->
     q_learning_with E choose alpha gamma eps iter_max t_max w = (Raise ValueError, w')).
Proof.
  intros Hsilent Hzero.
  assert (Hlast : forall q rl w',
            q_learning_locals E choose alpha gamma eps iter_max t_max w = (Ok (q, rl), w') ->
            q_learning_with E choose alpha gamma eps iter_max t_max w
              = (Raise ValueError, w')).
  { intros q rl w' Hlocals.
    pose proof (q_table_stays_zero E choose alpha gamma eps iter_max t_max w q rl w'
                  Hsilent Hlocals) as ->.
    unfold q_learning_with, bind. rewrite Hlocals.
    unfold np_argmax_axis1, np_zeros2. cbn [ncols]. rewrite Hzero. reflexivity. }
  split; [| exact Hlast].
  intros p Hp.
  destruct (q_learning_locals E choose alpha gamma eps iter_max t_max w)
    as [[[q rl]|e|] w1] eqn:Hlocals.
  - rewrite (Hlast q rl w1 eq_refl) in Hp. discriminate Hp.
  - unfold q_learning_with, bind in Hp. rewrite Hlocals in Hp. discriminate Hp.
  - unfold q_learning_with, bind in Hp. rewrite Hlocals in Hp. discriminate Hp.
Qed.

Lemma q_learning_needs_an_action_witness :
  q_learning_with empty_env Spec.choose_greedy (1 # 2) (96 # 100) (2 # 100) 0 3
      (fresh empty_env tt)
    = (Raise ValueError, fresh empty_env tt).
Proof.
  apply (proj2 (q_learning_needs_an_action empty_env Spec.choose_greedy
                  (1 # 2) (96 # 100) (2 # 100) 0 3 (fresh empty_env tt)
                  (choose_greedy_silent empty_env) eq_refl)
           (np_zeros2 0 0) []).
  reflexivity.
Defined.

(** ** The progress lines of q_learning *)

Lemma progress_count_step (k : nat) :
  (S k + 99) / 100 = (k + 99) / 100 + (if k mod 100 =? 0 then 1 else 0).
Proof.
  pose proof (Nat.div_mod_eq k 100) as Hk.
  pose proof (Nat.mod_upper_bound k 100 ltac:(lia)) as Hlt.
  destruct (Nat.eqb_spec (k mod 100) 0) as [Hz | Hnz].
  - rewrite <- (Nat.div_unique (k + 99) 100 (k / 100) 99) by lia.
    rewrite <- (Nat.div_unique (S k + 99) 100 (k / 100 + 1) 0) by lia.
    reflexivity.
  - rewrite <- (Nat.div_unique (k + 99) 100 (k / 100 + 1) (k mod 100 - 1)) by lia.
    rewrite <- (Nat.div_unique (S k + 99) 100 (k / 100 + 1) (k mod 100)) by lia.
    lia.
Qed.

(** The lines printed before the episode number [k + 1] belong to
    episodes that are over. *)
Lemma progress_line_index (k j : nat) : j < (k + 99) / 100 -> 100 * j + 1 <= k.
Proof.
  intros Hj. pose proof (Nat.Div0.mul_div_le (k + 99) 100) as Hle. lia.
Qed.

(** The line of the episode number [k + 1] comes after them. *)
Lemma progress_line_next (k : nat) : k mod 100 = 0 -> 100 * ((k + 99) / 100) + 1 = k + 1.
Proof.
  intros Hz. pose proof (Nat.div_mod_eq k 100) as Hk.
  rewrite <- (Nat.div_unique (k + 99) 100 (k / 100) 99) by lia. lia.
Qed.

(** [l[-k:]] is the end of [l], of [k] elements when [l] has as many. *)
Lemma last_k_suffix {A} (k : nat) (l : list A) :
  exists older,
    l = older ++ last_k k l /\
    length (last_k k l) = Nat.min k (length (older ++ last_k k l)).
Proof.
  exists (take (length l - k) l). unfold last_k.
  rewrite take_drop. split; [reflexivity |].
  rewrite length_drop. lia.
Qed.

(** A trace of [k] episodes at most is all of its first [k] episodes. *)
Lemma first_episodes_all (tr : list interaction) :
  forall k, count is_reset tr <= k -> first_episodes k tr = tr.
Proof.
  induction tr as [|[o|a o r d] tr IH]; intros k Hk; simpl in *.
  - reflexivity.
  - destruct k as [|k]; [lia |]. f_equal. apply IH. lia.
  - f_equal. apply IH. exact Hk.
Qed.

(** Episodes that are over are not changed by the episodes after them. *)
Lemma first_episodes_app (tr : list interaction) o (ep : list interaction) :
  forall k, k <= count is_reset tr ->
    first_episodes k (tr ++ Reset o :: ep) = first_episodes k tr.
Proof.
  induction tr as [|[o'|a o' r d] tr IH]; intros k Hk; simpl in *.
  - now replace k with 0 by lia.
  - destruct k as [|k]; [reflexivity |]. f_equal. apply IH. lia.
  - f_equal. apply IH. exact Hk.
Qed.

Lemma progress_line_stable (tr : list interaction) o (ep : list interaction)
    (iteration : nat) (line : output) :
  iteration <= count is_reset tr ->
  progress_line tr iteration line ->
  progress_line (tr ++ Reset o :: ep) iteration line.
Proof.
  intros Hle (older & window & Hline & Hhist & Hlen).
  exists older, window. rewrite first_episodes_app by exact Hle. auto.
Qed.

(** A binding of [choose_action] that prints nothing leaves the output
    alone for a whole episode. *)
Lemma episode_prints_nothing (E : Env) (choose : list Q -> Q -> nat -> Py E pyobj)
    (eps : Q) (t_max : nat) (l : locals) (w : World E) :
  chooser_quiet choose ->
  post (q_learning_episode E choose eps t_max l) w (fun _ w' => stdout w' = stdout w).
Proof.
  intros Hquiet. unfold q_learning_episode.
  apply (post_for_in (fun _ _ w2 => stdout w2 = stdout w)) with (k0 := 0);
    [reflexivity | | auto].
  intros k x [[[q' l'] tot'] s'] w2 _ Hout.
  apply post_bind. unfold getrow.
  destruct (rows q' !! s') as [row|]; [| apply post_raise; exact Hout].
  apply post_ret. simpl.
  apply post_bind. unfold post at 1.
  pose proof (Hquiet row eps (action_space_n E) w2) as Hc.
  destruct (choose row eps (action_space_n E) w2) as [[a|e|] w3];
    simpl in *; try congruence.
  apply post_bind. unfold post at 1, env_step.
  destruct (step E (sim w3) a) as [[e|[[obs r] d]] st]; simpl; [congruence |].
  destruct d; apply post_ret; simpl; congruence.
Qed.

(** X17.  With a [choose_action] that neither calls the environment nor
    prints, a call of [q_learning] that gets through its episodes has
    printed one line after each of the episodes 1, 101, 201, ... of the
    call, in this order, and nothing else.  The line after the episode
    number i carries i and the rewards recorded by the end of that
    episode (the accumulated rewards of the episodes that ended with
    [done]), the last 100 of them when there are more.  The last line of
    the function prints nothing. *)
Theorem q_learning_progress_lines (E : Env)
    (choose : list Q -> Q -> nat -> Py E pyobj)
    (alpha gamma eps : Q) (iter_max t_max : nat) (w : World E) q rl (w' : World E) :
  chooser_silent choose ->
  chooser_quiet choose ->
  q_learning_locals E choose alpha gamma eps iter_max t_max w = (Ok (q, rl), w') ->
  exists evs lines,
    trace w' = trace w ++ evs /\
    stdout w' = stdout w ++ lines /\
    length lines = (iter_max + 99) / 100 /\
    (forall j line, lines !! j = Some line -> progress_line evs (100 * j + 1) line) /\
    stdout (q_learning_with E choose alpha gamma eps iter_max t_max w).2 = stdout w'.
Proof.
  intros Hsilent Hquiet Hrun.
  assert (Hpost : post (q_learning_locals E choose alpha gamma eps iter_max t_max) w
            (fun o w1 =>
               match o with
               | Ok _ => exists evs lines,
                   trace w1 = trace w ++ evs /\
                   stdout w1 = stdout w ++ lines /\
                   length lines = (iter_max + 99) / 100 /\
                   (forall j line, lines !! j = Some line ->
                      progress_line evs (100 * j + 1) line)
               | _ => True
               end)).
  { unfold q_learning_locals.
    apply (post_for_range
      (fun k '(_, l) w1 => exists evs lines,
         trace w1 = trace w ++ evs /\ count is_reset evs = k /\
         l = history_from 0 evs /\
         stdout w1 = stdout w ++ lines /\
         length lines = (k + 99) / 100 /\
         (forall j line, lines !! j = Some line ->
            progress_line evs (100 * j + 1) line))).
    - exists [], []. rewrite !app_nil_r. repeat split; auto.
      intros j line Hj. discriminate Hj.
    - intros k [q0 l0] w1 Hk (evs & lines & Htr & Hres & -> & Hout & Hlen & Hlines).
      apply post_bind. unfold post at 1, env_reset.
      destruct (reset E (sim w1)) as [obs st]. unfold after; cbv beta iota.
      cbn [fst snd].
      apply post_bind. eapply post_weaken.
      2:{ apply post_and;
            [apply (episode_post E choose Hsilent)
            | apply (episode_prints_nothing E choose eps t_max _ _ Hquiet)]. }
      intros [[[[q1 l1] tot1] s1]|e|] w2 [(ep & Hep & Hr & _ & Ho) Hout2];
        unfold after; cbv beta iota; [| exact I | exact I].
      cbn [stdout trace] in Hep, Hout2.
      destruct Ho as (_ & -> & _).
      assert (Htr2 : trace w2 = trace w ++ (evs ++ Reset obs :: ep)).
      { rewrite Hep, Htr, <- !app_assoc. reflexivity. }
      assert (Hres2 : count is_reset (evs ++ Reset obs :: ep) = S k).
      { rewrite count_app. simpl. lia. }
      assert (Hhist : history_from 0 evs ++ history_from 0 ep
                      = history_from 0 (evs ++ Reset obs :: ep)).
      { now rewrite history_from_episode. }
      assert (Hold : forall j line, lines !! j = Some line ->
                progress_line (evs ++ Reset obs :: ep) (100 * j + 1) line).
      { intros j line Hj. apply progress_line_stable; [| now apply Hlines].
        rewrite Hres. apply progress_line_index. rewrite <- Hlen.
        apply lookup_lt_Some in Hj. exact Hj. }
      apply post_bind.
      destruct (k mod 100 =? 0) eqn:Hmod.
      + apply Nat.eqb_eq in Hmod.
        unfold post at 1, print. unfold after; cbv beta iota. cbn [fst snd].
        apply post_ret. unfold body_post, after; cbv beta iota. cbn [stdout trace].
        exists (evs ++ Reset obs :: ep),
               (lines ++ [Out_progress (k + 1)
                            (last_k 100 (history_from 0 evs ++ history_from 0 ep))]).
        split; [exact Htr2 |]. split; [exact Hres2 |]. split; [exact Hhist |].
        split; [rewrite Hout2, Hout, <- app_assoc; reflexivity |].
        split.
        * rewrite length_app, Hlen, progress_count_step.
          apply Nat.eqb_eq in Hmod. rewrite Hmod. reflexivity.
        * intros j line Hj.
          apply lookup_app_Some in Hj as [Hj | [Hge Hj]]; [now apply Hold |].
          apply list_lookup_singleton_Some in Hj as [Hj0 <-].
          assert (Hidx : 100 * j + 1 = k + 1).
          { replace j with ((k + 99) / 100) by lia. now apply progress_line_next. }
          rewrite Hidx.
          destruct (last_k_suffix 100 (history_from 0 evs ++ history_from 0 ep))
            as (older & Hsplit & Hlast).
          exists older, (last_k 100 (history_from 0 evs ++ history_from 0 ep)).
          split; [reflexivity |].
          rewrite first_episodes_all by lia.
          rewrite <- Hhist. split; [exact Hsplit | exact Hlast].
      + apply post_ret. unfold after; cbv beta iota.
        apply post_ret. unfold body_post, after; cbv beta iota.
        exists (evs ++ Reset obs :: ep), lines.
        split; [exact Htr2 |]. split; [exact Hres2 |]. split; [exact Hhist |].
        split; [congruence |].
        split; [| exact Hold].
        rewrite Hlen, progress_count_step, Hmod. lia.
    - intros [q0 l0] w1 (evs & lines & Htr & _ & _ & Hout & Hlen & Hlines).
      exists evs, lines. auto. }
  unfold post in Hpost. rewrite Hrun in Hpost. cbn [fst snd] in Hpost.
  destruct Hpost as (evs & lines & Htr & Hout & Hlen & Hlines).
  exists evs, lines. repeat split; auto.
  unfold q_learning_with, bind. rewrite Hrun.
  unfold np_argmax_axis1. destruct (ncols q =? 0); reflexivity.
Qed.

Lemma alternating_env_answers : env_answers alternating_env.
Proof.
  split.
  - intros st. simpl. lia.
  - intros st a. exists 0, (if Nat.odd st then 1%Q else 0%Q), true, st.
    simpl. split; [reflexivity | lia].
Qed.

(** 102 episodes of one step each in [alternating_env]: two lines, after
    the episodes 1 and 101, the second over the rewards of the episodes
    2 to 101. *)
Lemma q_learning_progress_lines_witness :
  exists q rl w',
    q_learning_locals alternating_env Spec.choose_greedy (1 # 2) (96 # 100) (2 # 100) 102 1
      (fresh alternating_env 0) = (Ok (q, rl), w') /\
    exists evs lines,
      trace w' = [] ++ evs /\
      stdout w' = [] ++ lines /\
      length lines = (102 + 99) / 100 /\
      (forall j line, lines !! j = Some line -> progress_line evs (100 * j + 1) line).
Proof.
  destruct (locals_returns alternating_env Spec.choose_greedy
              (choose_greedy_silent alternating_env) (1 # 2) (96 # 100) (2 # 100) 102 1
              (fresh alternating_env 0)
              (choose_greedy_returns alternating_env) alternating_env_answers)
    as (q & rl & Hrun).
  destruct (q_learning_locals alternating_env Spec.choose_greedy (1 # 2) (96 # 100)
              (2 # 100) 102 1 (fresh alternating_env 0)) as [o w'] eqn:Heq.
  simpl in Hrun. subst o.
  exists q, rl, w'. split; [reflexivity |].
  destruct (q_learning_progress_lines alternating_env Spec.choose_greedy
              (1 # 2) (96 # 100) (2 # 100) 102 1 (fresh alternating_env 0) q rl w'
              (choose_greedy_silent alternating_env) (fun q eps n w => eq_refl) Heq)
    as (evs & lines & H1 & H2 & H3 & H4 & _).
  exists evs, lines. auto.
Defined.
